(** * MochiMap API: the chain statistics of [Responder.chain]

    A shallow embedding of [Responder.chain] (src/apiResponder.js): the
    computation of the partial-tfile parameters, the backward scan over the
    block trailers of the downloaded tfile, the (neo)genesis ledger lookup
    that recovers the supply, and the derived chain metrics.

    Conventions of the embedding.
    - A JavaScript BigInt is a [Z], and its arithmetic is exact.
    - A finite JavaScript Number that holds an integer (the request
      number, trailer fields, counters, sums of such) is the [Z] it
      denotes.  Additions and subtractions of Numbers and the conversion
      [Number(bigint)] round to the nearest binary64 value, ties to even
      ([to_Number], [Number_add], [Number_sub]): they are exact up to
      [2 ^ 53] in magnitude and round beyond.  binary64 overflows at
      [2 ^ 1024]: a [Z] of that magnitude or more stands for the [Infinity]
      of its sign ([infinite]).  NaN and fractions occur only as results of
      divisions.
    - The result of a Number division is a [jsnum]: an exact rational, an
      infinity or NaN.  Division never throws in JavaScript; a zero divisor
      produces an infinity or NaN.
    - The collaborators that live outside src/apiResponder.js
      ([blockReward], [projectedSupply], [round] of ./apiUtils, [Db.findOne],
      [Mochimo.getTfile], [Mochimo.Trigg.expand]) are parameters of the
      development.
    - The lookups sent to the database are logged in the scan state
      ([queries]), in the order in which they are issued.

    Besides, [Js] holds the JavaScript values and built-ins that the sources
    use, [Util] the functions of src/util.js ([asUint64String],
    [objectIsEmpty], [objectDifference], [fidFormat], [invalidHexString],
    [compareWeight], [isPrivateIPv4] and the heuristic of [visualizeHaiku]),
    and [Responder] the other answers of src/apiResponder.js ([_respond],
    [unknown], [unknownInternal], [expandResults], [transaction], [network],
    [search]).  Their properties are proved in [JsFacts], [UtilFacts] and
    [ResponderFacts]. *)

From Stdlib Require Import ZArith List Ascii String QArith Lia Bool.
Import ListNotations.
Local Open Scope Z_scope.

(** * The JavaScript values and built-ins that the sources use

    Integer-valued Numbers and BigInts carry a [Z]; strings are strings of
    code units below 256. *)

Module Js.

#[local] Set Warnings "-register-all".

Inductive value : Type :=
| Undefined
| Null
| Boolean (b : bool)
| Number (n : Z)
| BigInt (n : Z)
| Str (s : string)
| Array (items : list value)
| Object (props : list (string * value)).

Definition typeof (v : value) : string :=
  match v with
  | Undefined => "undefined"
  | Null => "object"
  | Boolean _ => "boolean"
  | Number _ => "number"
  | BigInt _ => "bigint"
  | Str _ => "string"
  | Array _ => "object"
  | Object _ => "object"
  end.

(** The condition of [if (v)]. *)
Definition truthy (v : value) : bool :=
  match v with
  | Undefined => false
  | Null => false
  | Boolean b => b
  | Number n => negb (n =? 0)
  | BigInt n => negb (n =? 0)
  | Str s => negb (String.eqb s "")
  | Array _ => true
  | Object _ => true
  end.

(** [v === s] for a string [s]. *)
Definition is_string (v : value) (s : string) : bool :=
  match v with
  | Str s' => String.eqb s' s
  | _ => false
  end.

(** [o[k]] on the own properties of an object (the properties that an
    object inherits, such as [constructor], are not modelled). *)
Fixpoint get (props : list (string * value)) (k : string) : value :=
  match props with
  | [] => Undefined
  | (k', v) :: rest => if String.eqb k' k then v else get rest k
  end.

(** [Object.prototype.hasOwnProperty.call(o, k)]. *)
Definition has (props : list (string * value)) (k : string) : bool :=
  existsb (fun kv => String.eqb (fst kv) k) props.

(** [o[k] = v]: an existing property keeps its place, a new one comes
    last. *)
Fixpoint set (props : list (string * value)) (k : string) (v : value)
  : list (string * value) :=
  match props with
  | [] => [(k, v)]
  | (k', v') :: rest =>
      if String.eqb k' k then (k', v) :: rest else (k', v') :: set rest k v
  end.

(** [Object.assign(target, source)]. *)
Definition assign (target source : list (string * value))
  : list (string * value) :=
  fold_left (fun o kv => set o (fst kv) (snd kv)) source target.

(** [s.padStart(targetLength, padString)]: [fill k cur pad] is the first
    [k] characters of [cur] followed by repetitions of [pad]. *)
Fixpoint fill (k : nat) (cur pad : string) : string :=
  match k with
  | O => EmptyString
  | S k' =>
      match cur with
      | String c rest => String c (fill k' rest pad)
      | EmptyString =>
          match pad with
          | String c rest => String c (fill k' rest pad)
          | EmptyString => EmptyString
          end
      end
  end.

Definition padStart (s : string) (targetLength : nat) (padString : string)
  : string :=
  if (targetLength <=? String.length s)%nat then s
  else (fill (targetLength - String.length s) padString padString ++ s)%string.

Definition hex_digit (d : Z) : ascii :=
  match d with
  | 0 => "0" | 1 => "1" | 2 => "2" | 3 => "3" | 4 => "4" | 5 => "5"
  | 6 => "6" | 7 => "7" | 8 => "8" | 9 => "9" | 10 => "a" | 11 => "b"
  | 12 => "c" | 13 => "d" | 14 => "e" | _ => "f"
  end%char.

(** The hexadecimal digits of [n >= 0], most significant first. *)
Fixpoint hex_digits (fuel : nat) (n : Z) : string :=
  match fuel with
  | O => EmptyString
  | S fuel' =>
      if n <? 16 then String (hex_digit n) EmptyString
      else (hex_digits fuel' (n / 16)
            ++ String (hex_digit (n mod 16)) EmptyString)%string
  end.

(** [n.toString(16)] of a BigInt. *)
Definition toString16 (n : Z) : string :=
  if n <? 0 then String "-"%char (hex_digits (S (Z.to_nat (Z.log2 (- n)))) (- n))
  else hex_digits (S (Z.to_nat (Z.log2 n))) n.

(** [s.split(sep)] for a separator of one character. *)
Fixpoint split (sep : ascii) (s : string) : list string :=
  match s with
  | EmptyString => [EmptyString]
  | String c rest =>
      if Ascii.eqb c sep then EmptyString :: split sep rest
      else match split sep rest with
           | [] => [String c EmptyString]
           | part :: parts => String c part :: parts
           end
  end.

(** [s1 > s2] and [s1 < s2] on strings: the order of the code units. *)
Definition gt (s1 s2 : string) : bool :=
  match String.compare s1 s2 with Gt => true | _ => false end.

Definition lt (s1 s2 : string) : bool :=
  match String.compare s1 s2 with Lt => true | _ => false end.

End Js.

(** * src/util.js *)

Module Util.

#[local] Set Warnings "-register-all".

(** [asUint64String(bigint)], for an argument that [BigInt] converts to an
    integer. *)
Definition asUint64String (bigint : Z) : string :=
  Js.padStart (Js.toString16 (bigint mod 2 ^ 64)) 16 "0".

(** ** [objectIsEmpty] and [objectDifference] *)

(** Values whose objects have an identity: [ref] tells one object from
    another, [props] are its own enumerable properties (those of an array
    are its indices).  [objA !== objB] compares objects by identity.  A
    Number is an integer or NaN; a function is an object of its own type
    ([typeof] is not "object"), known by its identity. *)
Inductive ovalue : Type :=
| OUndefined
| ONull
| OBoolean (b : bool)
| ONumber (n : Z)
| ONaN
| OString (s : string)
| OFunction (ref : nat)
| OObject (ref : nat) (props : list (string * ovalue)).

(** What [objectDifference] returns: a new object whose properties are
    values of [objB] or, below, new objects again. *)
Inductive dvalue : Type :=
| Kept (v : ovalue)
| Created (props : list (string * dvalue)).

(** [typeof v === 'object']. *)
Definition typeof_object (v : ovalue) : bool :=
  match v with
  | ONull => true
  | OObject _ _ => true
  | _ => false
  end.

(** [a === b]: NaN is not equal to anything, itself included. *)
Definition strict_eq (a b : ovalue) : bool :=
  match a, b with
  | OUndefined, OUndefined => true
  | ONull, ONull => true
  | OBoolean x, OBoolean y => Bool.eqb x y
  | ONumber x, ONumber y => x =? y
  | OString x, OString y => String.eqb x y
  | OFunction r1, OFunction r2 => Nat.eqb r1 r2
  | OObject r1 _, OObject r2 _ => Nat.eqb r1 r2
  | _, _ => false
  end.

(** [Number.isNaN(v)]. *)
Definition isNaN (v : ovalue) : bool :=
  match v with
  | ONaN => true
  | _ => false
  end.

(** The own property [key] of a list of properties, if there is one. *)
Fixpoint find_prop {A : Type} (props : list (string * A)) (key : string)
  : option A :=
  match props with
  | [] => None
  | (k, v) :: rest => if String.eqb k key then Some v else find_prop rest key
  end.

Section Difference.

(** [inherited ref key] is what [obj[key]] yields for the object [ref]
    when [key] is not one of its own enumerable properties: the property
    that the prototype chain of the object holds under that name
    ([constructor], [toString], ... for a plain object) or a property of its
    own that is not enumerable (the [length] of an array), and [undefined]
    when there is none.  The prototypes are not part of src/util.js. *)
Variable inherited : nat -> string -> ovalue.

(** [objA[key]]: an own property shadows an inherited one; [None] is the
    TypeError for [null] and [undefined].  ([objectDifference] reads the
    properties of values of type "object" only.) *)
Definition member (objA : ovalue) (key : string) : option ovalue :=
  match objA with
  | OUndefined => None
  | ONull => None
  | OObject ref props =>
      Some (match find_prop props key with
            | Some v => v
            | None => inherited ref key
            end)
  | _ => Some OUndefined
  end.

(** [{ ...objC, [key]: value }]. *)
Fixpoint with_prop {A : Type} (objC : list (string * A)) (key : string)
    (value : A) : list (string * A) :=
  match objC with
  | [] => [(key, value)]
  | (k, v) :: rest =>
      if String.eqb k key then (k, value) :: rest
      else (k, v) :: with_prop rest key value
  end.

(** [objectIsEmpty(obj)] on the own enumerable properties of an object. *)
Definition objectIsEmpty {A : Type} (props : list (string * A)) : bool :=
  match props with
  | [] => true
  | _ :: _ => false
  end.

(** The [filter] and the [reduce] of lines 40-50 in one pass over the
    entries of [objB] (the callbacks have no effect, so the order of the two
    passes cannot be seen).  [recur] is [objectDifference] at [depth - 1],
    [descend] the test [depth - 1 !== 0]; [None] is a TypeError. *)
Fixpoint difference_reduce
    (recur : ovalue -> ovalue -> option (list (string * dvalue)))
    (descend : bool) (objA : ovalue) (entries : list (string * ovalue))
    (objC : list (string * dvalue)) : option (list (string * dvalue)) :=
  match entries with
  | [] => Some objC
  | (key, value) :: rest =>
      match member objA key with
      | None => None
      | Some a =>
          if strict_eq a value
          then difference_reduce recur descend objA rest objC
          else if typeof_object value && typeof_object a then
            if descend then
              match recur a value with
              | None => None
              | Some d =>
                  if objectIsEmpty d
                  then difference_reduce recur descend objA rest objC
                  else difference_reduce recur descend objA rest
                         (with_prop objC key (Created d))
              end
            else difference_reduce recur descend objA rest
                   (with_prop objC key (Kept value))
          else difference_reduce recur descend objA rest
                 (with_prop objC key (Kept value))
      end
  end.

(** [objectDifference(objA, objB, depth)] for a Number [depth]; [None] is
    a TypeError, thrown by the function or by [Object.entries(null)]. *)
Fixpoint objectDifference (objA objB : ovalue) (depth : Z) {struct objB}
  : option (list (string * dvalue)) :=
  if negb (typeof_object objA) || negb (typeof_object objB) then None
  else
    match objB with
    | OObject _ entries =>
        difference_reduce
          (fun a value => objectDifference a value (depth - 1))
          (negb (depth - 1 =? 0)) objA entries []
    | _ => None
    end.

End Difference.

(** ** [fidFormat] *)

(** The inner [t(s, m)], on the string [`${s}`]. *)
Definition t (s : string) (m : nat) : string :=
  if (m <? String.length s)%nat then (String.substring 0 m s ++ "~")%string
  else s.

(** [array.reduce((a, c, i) => a + t(c, max) + (i < end ? d : ''), a0)],
    from the index [i] on. *)
Fixpoint tJoin_reduce (array : list string) (max : nat) (d : string)
    (end_ : Z) (i : nat) (a : string) : string :=
  match array with
  | [] => a
  | c :: rest =>
      tJoin_reduce rest max d end_ (S i)
        (a ++ t c max ++ (if (Z.of_nat i <? end_)%Z then d else ""))%string
  end.

Definition tJoin (array : list string) (max : nat) (d : string) : string :=
  let end_ := Z.of_nat (List.length array) - 1 in
  tJoin_reduce array max d end_ 0 "".

(** [fidFormat(fid, ...args)], the arguments given as the strings that the
    template literal makes of them. *)
Definition fidFormat (fid : string) (args : list string) : string :=
  String.concat "" [fid; "("; tJoin args 8 ", "; "):"]%string.

(** ** [invalidHexString] *)

(** The class [[0-9A-Fa-f]]. *)
Definition hex_char (c : ascii) : bool :=
  let n := N_of_ascii c in
  ((48 <=? n) && (n <=? 57) || (65 <=? n) && (n <=? 70)
   || (97 <=? n) && (n <=? 102))%N.

(** [s.replace(/[...]/g, '')] for a class of characters. *)
Fixpoint remove_all (class : ascii -> bool) (s : string) : string :=
  match s with
  | EmptyString => EmptyString
  | String c rest =>
      if class c then remove_all class rest
      else String c (remove_all class rest)
  end.

(** [None] is the answer [false]. *)
Definition invalidHexString (hexStr : Js.value) (name : string)
  : option string :=
  match hexStr with
  | Js.Str s =>
      if Js.truthy (Js.Str (remove_all hex_char s))
      then Some ("invalid data, " ++ name)%string
      else None
  | _ => Some ("invalid type, " ++ name)%string
  end.

(** ** [compareWeight] *)

Definition compareWeight (weight1 weight2 : string) : Z :=
  let maxLen := Nat.max (String.length weight1) (String.length weight2) in
  let weight1 := Js.padStart weight1 maxLen "0" in
  let weight2 := Js.padStart weight2 maxLen "0" in
  if Js.gt weight1 weight2 then 1
  else if Js.lt weight1 weight2 then -1
  else 0.

(** ** [isPrivateIPv4] *)

Section IPv4.

(** What [dv.setUint8(i, part)] makes of a string before it reduces it
    modulo 256: the integer part of its numeric value, 0 when that is NaN
    or infinite. *)
Variable StringToInteger : string -> Z.

(** The four bytes [c[0..3]] after lines 153-157. *)
Definition ip_bytes (ip : Js.value) : list Z :=
  match ip with
  | Js.Number n =>
      let u := n mod 2 ^ 32 in
      [u mod 256; (u / 2 ^ 8) mod 256; (u / 2 ^ 16) mod 256;
       (u / 2 ^ 24) mod 256]
  | Js.Str s =>
      let a := Js.split "." s in
      map (fun i => match nth_error a i with
                    | Some part => StringToInteger part mod 256
                    | None => 0
                    end)
          [0; 1; 2; 3]%nat
  | _ => [0; 0; 0; 0]
  end.

Definition isPrivateIPv4 (ip : Js.value) : Z :=
  let c := ip_bytes ip in
  let c0 := nth 0 c 0 in
  let c1 := nth 1 c 0 in
  if (c0 =? 0) || (c0 =? 127) || (c0 =? 10) then 1
  else if (c0 =? 172) && (16 <=? Z.land c1 255) && (Z.land c1 255 <=? 31)
  then 2
  else if (c0 =? 192) && (Z.land c1 255 =? 168) then 3
  else if (c0 =? 169) && (Z.land c1 255 =? 254) then 4
  else 0.

End IPv4.

(** ** The heuristic [algo] of [visualizeHaiku] *)

Section Algo.

Variables photo regex : Type.

(** The list [ts] of the expressions made from the words of the haiku, and
    [(arr[i][key].match(r) || []).length] for photos whose [key] is a
    string. *)
Variable ts : list regex.
Variable matches : regex -> photo -> Z.

(** The value of [is] after [ts.forEach]. *)
Definition algo_score (p : photo) : Z :=
  fold_left (fun is_ r => is_ + matches r p) ts 0.

(** The [for] loop from the index [i] on, [pi] and [ps] being the best
    index and score so far. *)
Fixpoint algo_loop (arr : list photo) (i pi : nat) (ps : Z) : nat * Z :=
  match arr with
  | [] => (pi, ps)
  | p :: rest =>
      if ps <? algo_score p
      then algo_loop rest (S i) i (algo_score p)
      else algo_loop rest (S i) pi ps
  end.

(** [{ photo: arr[pi], ps }]; [arr[0]] of an empty array is [undefined]. *)
Definition algo (arr : list photo) : option photo * Z :=
  let '(pi, ps) := algo_loop arr 0 0 0 in
  (nth_error arr pi, ps).

(** After [n] elements of [whole], [ps] bounds their scores, and either
    nothing scored above 0 or [pi] is the first index with the score
    [ps]. *)
Definition algo_best (whole : list photo) (n pi : nat) (ps : Z) : Prop :=
  (forall j p, (j < n)%nat -> nth_error whole j = Some p ->
     algo_score p <= ps)
  /\ ((ps = 0 /\ pi = 0%nat)
      \/ (0 < ps /\ (pi < n)%nat
          /\ exists p, nth_error whole pi = Some p /\ algo_score p = ps
               /\ forall j q, (j < pi)%nat -> nth_error whole j = Some q ->
                    algo_score q < ps)).

End Algo.

(** ** Vocabulary of the statements *)

(** The digits [0-9a-f]. *)
Definition lower_hex_char (c : ascii) : bool :=
  let n := N_of_ascii c in
  ((48 <=? n) && (n <=? 57) || (97 <=? n) && (n <=? 102))%N.

Fixpoint all_chars (class : ascii -> bool) (s : string) : bool :=
  match s with
  | EmptyString => true
  | String c rest => class c && all_chars class rest
  end.

(** The value of a hexadecimal digit, and the number that a string of such
    digits denotes. *)
Definition digit_value (c : ascii) : Z :=
  let n := Z.of_N (N_of_ascii c) in
  if (48 <=? n) && (n <=? 57) then n - 48
  else if (97 <=? n) && (n <=? 102) then n - 87
  else if (65 <=? n) && (n <=? 70) then n - 55
  else 0.

Fixpoint hex_value (s : string) : Z :=
  match s with
  | EmptyString => 0
  | String c rest =>
      digit_value c * 16 ^ Z.of_nat (String.length rest) + hex_value rest
  end.

(** [k] characters [c]. *)
Fixpoint chars (k : nat) (c : ascii) : string :=
  match k with
  | O => EmptyString
  | S k' => String c (chars k' c)
  end.

(** Two values are alike when they are the same up to the identity of
    their objects: equal primitives, or objects with the same keys in the
    same order and alike values. *)
Inductive alike : ovalue -> ovalue -> Prop :=
| alike_primitive (a b : ovalue) :
    (forall ref props, a <> OObject ref props) ->
    strict_eq a b = true -> alike a b
| alike_object (ra rb : nat) (pa pb : list (string * ovalue)) :
    Forall2 (fun x y => fst x = fst y /\ alike (snd x) (snd y)) pa pb ->
    alike (OObject ra pa) (OObject rb pb).

(** No object of the value has two properties of the same name. *)
Inductive well_keyed : ovalue -> Prop :=
| well_keyed_undefined : well_keyed OUndefined
| well_keyed_null : well_keyed ONull
| well_keyed_boolean (b : bool) : well_keyed (OBoolean b)
| well_keyed_number (n : Z) : well_keyed (ONumber n)
| well_keyed_nan : well_keyed ONaN
| well_keyed_string (s : string) : well_keyed (OString s)
| well_keyed_function (ref : nat) : well_keyed (OFunction ref)
| well_keyed_object (ref : nat) (props : list (string * ovalue)) :
    NoDup (map fst props) ->
    Forall (fun kv => well_keyed (snd kv)) props ->
    well_keyed (OObject ref props).

(** Two objects with the same content and no object in common. *)
Definition sample_object_1 : ovalue :=
  OObject 1 [("a", ONumber 1); ("b", OObject 2 [("c", OString "x")])]%string.

Definition sample_object_2 : ovalue :=
  OObject 3 [("a", ONumber 1); ("b", OObject 4 [("c", OString "x")])]%string.

(** An object that holds NaN, the empty object, and an object with an own
    property named as an inherited one. *)
Definition sample_object_nan : ovalue :=
  OObject 5 [("a", ONaN); ("b", ONumber 1)]%string.

Definition sample_object_empty : ovalue := OObject 6 [].

Definition sample_object_constructor : ovalue :=
  OObject 7 [("constructor", OUndefined); ("x", OUndefined)]%string.

(** The objects of the samples are plain objects: they inherit their
    [constructor], the function [Object]. *)
Definition sample_inherited (ref : nat) (key : string) : ovalue :=
  if String.eqb key "constructor" then OFunction 0 else OUndefined.

(** The sign of a comparison, as [compareWeight] reports it. *)
Definition sign_of (c : comparison) : Z :=
  match c with
  | Eq => 0
  | Lt => -1
  | Gt => 1
  end.

End Util.

Module Responder.

(** ** Data *)

(** The fields of a decoded [Mochimo.BlockTrailer].  [bnum] and [mfee] are
    BigInt values, the other numeric fields are Numbers; hashes and the
    nonce are hexadecimal strings.  The decoder yields unsigned values; the
    statements below hold for every integer. *)
Record BlockTrailer : Type := mkBlockTrailer {
  phash : string;
  bnum : Z;
  mfee : Z;
  tcount : Z;
  time0 : Z;
  difficulty : Z;
  mroot : string;
  nonce : string;
  stime : Z;
  bhash : string
}.

(** The value of a Number division. *)
Inductive jsnum : Type :=
| JFin (q : Q)
| JPosInf
| JNegInf
| JNaN.

(** The Number [x] is [Infinity] or [-Infinity]. *)
Definition infinite (x : Z) : bool := 2 ^ 1024 <=? Z.abs x.

(** [x / y] on integer-valued Numbers ([y] is never a negative zero here:
    every divisor of [chain] is a literal 0, a counter or a sum). *)
Definition js_div (x y : Z) : jsnum :=
  if y =? 0 then
    if x =? 0 then JNaN else if 0 <? x then JPosInf else JNegInf
  else if infinite x then
    if infinite y then JNaN
    else if 0 <? x * y then JPosInf else JNegInf
  else if infinite y then JFin 0
  else JFin (inject_Z x / inject_Z y)%Q.

Definition js_finite (v : jsnum) : bool :=
  match v with JFin _ => true | _ => false end.

(** The Number nearest to the integer [z]: [Number(z)] for a BigInt or a
    decimal string [z], and the rounding of every Number operation whose
    exact result is [z].  A binary64 value has a significand of 53 bits:
    below [2 ^ 53] every integer is a Number; beyond, [z] is rounded to the
    nearest multiple of [2 ^ e] that has a 53-bit quotient, a tie going to
    the even quotient.  A result of [2 ^ 1024] or more is [Infinity]. *)
Definition to_Number (z : Z) : Z :=
  let m := Z.abs z in
  if m <? 2 ^ 53 then z
  else
    let e := Z.log2 m - 52 in
    let q := m / 2 ^ e in
    let r := m mod 2 ^ e in
    let half := 2 ^ (e - 1) in
    let q' := if r <? half then q
              else if half <? r then q + 1
              else if Z.even q then q else q + 1 in
    Z.sgn z * (q' * 2 ^ e).

(** [x + y] and [x - y] on Numbers.  (An infinite [x] stays infinite when
    [y] is finite and of no greater magnitude than [2 ^ 969], as the request
    numbers, the trailer fields and the constants of the sources are; the
    sources never add or subtract two infinities.) *)
Definition Number_add (x y : Z) : Z := to_Number (x + y).

Definition Number_sub (x y : Z) : Z := to_Number (x - y).

(** Modelled from the spec: [Db.util.id.block(bnum, bhash)] of ./apiDatabase
    is not part of the sources; the baseline store is keyed by the position
    and the block hash of the record. *)
Definition block_id : Type := (Z * string)%type.

Definition id_block (b : Z) (h : string) : block_id := (b, h).

(** What [await Db.findOne('block', query)] followed by
    [Db.util.filterLong(ng)] can produce inside the [try]: an exception, no
    document ([null]), or a document whose [amount] is a BigInt or is
    absent. *)
Inductive findOne_result : Type :=
| DbThrows
| DbNull
| DbDoc (amount : option Z).

(** The object [{ maxsupply, supply }] assigned to [chain] by the scan. *)
Record chain_supply : Type := mkChainSupply {
  cs_maxsupply : Z;
  cs_supply : Z
}.

(** The local variables of the scan (lines 115-124), the object [chain] and
    the log of the database queries. *)
Record scan_state : Type := mkScan {
  supply : option Z;
  rewards : Z;
  pseudorate : Z;
  nonNeogenesis : Z;
  transactions : Z;
  blockTimes : Z;
  hashesTimes : Z;
  hashes : Z;
  difficulties : Z;
  chain_obj : option chain_supply;
  queries : list block_id
}.

(** The JSON object sent with status 200. *)
Record chain_json : Type := mkChainJson {
  json_bhash : string;
  json_phash : string;
  json_mroot : string;
  json_nonce : string;
  json_haiku : option string;
  json_bnum : Z;
  json_mfee : Z;
  json_time0 : Z;
  json_stime : Z;
  json_blocktime : Z;
  json_blocktime_avg : jsnum;
  json_tcount : Z;
  json_tcount_avg : jsnum;
  json_tcountpsec : jsnum;
  json_tcountpsec_avg : jsnum;
  json_txfees : Z;
  json_reward : Z;
  json_mreward : Z;
  json_difficulty : Z;
  json_difficulty_avg : jsnum;
  json_hashrate : jsnum;
  json_hashrate_avg : jsnum;
  json_pseudorate_avg : jsnum;
  json_maxsupply : Z;
  json_supply : Z
}.

Inductive body : Type :=
| ChainData (json : chain_json)
| Message (message : string).

(** [Responder._respond(res, statusCode, json)], or the 500 answer of
    [Responder.unknownInternal] when the body of [chain] throws. *)
Inductive response : Type :=
| Respond (statusCode : Z) (json : body)
| UnknownInternal.

(** ** The partial tfile parameters (lines 101-108) *)

Definition target : Z := 768.

(** Lines 103-105: [blockHex] stands in for a missing [blockNumber]; when
    both are missing the request is for the last [target] blocks.  The
    arguments are the integers that the strings of the request denote;
    [Number(blockNumber)] is the nearest Number. *)
Definition requested (blockNumber blockHex : option Z) : Z :=
  match blockNumber with
  | Some n => to_Number n
  | None => match blockHex with
            | Some n => to_Number n
            | None => - target
            end
  end.

(** Line 107, on the Number [blockNumber]. *)
Definition tfile_count (blockNumber : Z) : Z :=
  if blockNumber <? target then Number_add (Z.abs blockNumber) 1 else target.

(** Line 108. *)
Definition tfile_start (blockNumber : Z) : Z :=
  if -1 <? blockNumber
  then Number_sub blockNumber (Number_sub (tfile_count blockNumber) 1)
  else blockNumber.

(** ** Classification of a trailer *)

(** [bnum & 0xffn] is truthy. *)
Definition nonNeogenesis_block (t : BlockTrailer) : bool :=
  negb (Z.land (bnum t) 255 =? 0).

(** [!x] for a BigInt variable that may still be [undefined]. *)
Definition js_not (x : option Z) : bool :=
  match x with
  | None => true
  | Some v => v =? 0
  end.

(** ** The other answers of the responder (lines 38-97 and 209-279) *)

(** What [res.writeHead] and [res.end] are given by one call of
    [Responder._respond]; [res_json] is the object that [res_body]
    serializes. *)
Record http_response : Type := mkHttpResponse {
  res_statusCode : Z;
  res_statusMessage : string;
  res_headers : list (string * Js.value);
  res_json : list (string * Js.value);
  res_body : string
}.

(** The [switch] of lines 51-60. *)
Definition default_statusMessage (statusCode : Z) : string :=
  match statusCode with
  | 200 => "OK"
  | 400 => "Bad Request"
  | 404 => "Not Found"
  | 406 => "Not Acceptable"
  | 409 => "Conflict"
  | 422 => "Unprocessable Entity"
  | 500 => "Internal Server Error"
  | _ => ""
  end.

(** Lines 50-61; the parameter [statusMessage] is a string or is left out
    ([false]). *)
Definition respond_statusMessage (statusCode : Z)
    (statusMessage : option string) : string :=
  match statusMessage with
  | Some m => if Js.truthy (Js.Str m) then m
              else default_statusMessage statusCode
  | None => default_statusMessage statusCode
  end.

(** Lines 62-65. *)
Definition respond_json (statusCode : Z) (json : list (string * Js.value))
    (statusMessage : string) : list (string * Js.value) :=
  if (299 <? statusCode) && negb (Js.truthy (Js.get json "error"))
  then Js.assign [("error"%string, Js.Str statusMessage)] json
  else json.

(** [Object.values(v)]; [None] is the TypeError for [undefined] and
    [null]. *)
Definition Object_values (v : Js.value) : option (list Js.value) :=
  match v with
  | Js.Undefined => None
  | Js.Null => None
  | Js.Object props => Some (map snd props)
  | Js.Array items => Some items
  | Js.Str s =>
      Some (map (fun c => Js.Str (String c EmptyString))
                (list_ascii_of_string s))
  | _ => Some []
  end.

(** The loop of lines 223-228 over the regions of a node. *)
Inductive regions_check : Type :=
| RegionNotOk
| RegionThrows
| RegionsOk.

Fixpoint check_regions (regions : list Js.value) : regions_check :=
  match regions with
  | [] => RegionsOk
  | region :: rest =>
      match region with
      | Js.Undefined => RegionThrows
      | Js.Null => RegionThrows
      | Js.Object props =>
          if Js.truthy (Js.get props "status") then RegionNotOk
          else check_regions rest
      | _ => check_regions rest
      end
  end.

(** A cursor of the database: what [count()] and [toArray()] give. *)
Record cursor : Type := mkCursor {
  cursor_count : Z;
  cursor_toArray : list Js.value
}.

(** [Math.ceil(found / limit)] on integers, [limit] not 0. *)
Definition ceil_div (found limit : Z) : Z := - ((- found) / limit).

Section Handlers.

(** [JSON.stringify(json, null, 2)] and [Buffer.byteLength]. *)
Variable JSON_stringify : list (string * Js.value) -> string.
Variable byteLength : string -> Z.
(** The string that a template literal makes of a value. *)
Variable ToString : Js.value -> string.
(** [new Date().toISOString()] in [unknownInternal]; [Date.now()] at the
    start of [search] and in [expandResults]. *)
Variable timestamp : string.
Variable search_start : Z.
Variable results_time : Z.
(** ./apiDatabase and ./apiInterpreter: [None] is an exception, [Some None]
    the answer [null]. *)
Variable Db_findOne :
  string -> list (string * Js.value) -> option (option (list (string * Js.value))).
Variable Db_find :
  string -> Js.value -> option Z -> option cursor.
Variable Interpreter_search :
  Js.value -> Z -> string -> option (Js.value * option Z).

(** [Responder._respond(res, statusCode, json, statusMessage)]. *)
Definition _respond (statusCode : Z) (json : list (string * Js.value))
    (statusMessage : option string) : http_response :=
  let statusMessage := respond_statusMessage statusCode statusMessage in
  let json := respond_json statusCode json statusMessage in
  let body := JSON_stringify json in
  let headers :=
    [("X-Robots-Tag", Js.Str "none");
     ("X-Content-Type-Options", Js.Str "nosniff");
     ("X-Frame-Options", Js.Str "DENY");
     ("X-XSS-Protection", Js.Str "1; mode=block");
     ("Referrer-Policy", Js.Str "no-referrer");
     ("Content-Type", Js.Str "application/json");
     ("Content-Length", Js.Number (byteLength body));
     ("Content-Security-Policy",
      Js.Str "default-src 'none'; frame-ancestors 'none'");
     ("Access-Control-Allow-Origin", Js.Str "*")]%string in
  mkHttpResponse statusCode statusMessage headers json body.

(** [Responder.unknown(res, code, json)]. *)
Definition unknown (code : option Z)
    (json : option (list (string * Js.value))) : http_response :=
  _respond (match code with Some c => c | None => 200 end)
           (match json with Some j => j | None => [] end)
           None.

(** [Responder.unknownInternal(res, error)]. *)
Definition unknownInternal : http_response :=
  unknown (Some 500)
    (Some [("message",
            Js.Str ("MochiMap API has encountered an unexpected error. "
                    ++ "Please try again later.  @ "
                    ++ "https://github.com/chrisdigity/api.mochimap.com/issues"));
           ("timestamp", Js.Str timestamp)]%string).

(** [expandResults(cursor, options, start)], [limit] being [options.limit],
    a Number or [undefined]. *)
Definition expandResults (c : cursor) (limit : option Z) (start : Z)
  : list (string * Js.value) :=
  let dbquery :=
    [("duration", Js.Null); ("found", Js.Number (cursor_count c))]%string in
  let dbquery :=
    match limit with
    | Some l =>
        if Js.truthy (Js.Number l)
        then Js.set dbquery "pages" (Js.Number (ceil_div (cursor_count c) l))
        else dbquery
    | None => dbquery
    end in
  let dbquery := Js.set dbquery "results" (Js.Array (cursor_toArray c)) in
  Js.set dbquery "duration" (Js.Number (results_time - start)).

(** [Responder.transaction(res, txid)]. *)
Definition transaction (txid : Js.value) : http_response :=
  match Db_findOne "transaction" [("txid"%string, txid)] with
  | None => unknownInternal
  | Some (Some doc) => _respond 200 doc None
  | Some None =>
      _respond 404
        [("message"%string,
          Js.Str (ToString txid ++ " could not be found..."))]
        None
  end.

(** [Responder.network(res, status, ip)]: the calls of [_respond], in
    order ([res] records them; its methods are taken not to throw). *)
Definition network (status ip : Js.value) : list http_response :=
  let ip := if Js.truthy ip then ip else status in
  match Db_findOne "network" [("host.ip"%string, ip)] with
  | None => [unknownInternal]
  | Some None =>
      [_respond 404
         [("message"%string,
           Js.Str (ToString ip ++ " could not be found..."))]
         None]
  | Some (Some node) =>
      if Js.is_string status "active" then
          let connection := Js.get node "connection" in
          let incomplete :=
            if String.eqb (Js.typeof connection) "object" then []
            else [unknownInternal] in
          match Object_values connection with
          | None => incomplete ++ [unknownInternal]
          | Some regions =>
              match check_regions regions with
              | RegionNotOk =>
                  incomplete ++
                  [_respond 404
                     [("message"%string,
                       Js.Str (ToString ip
                               ++ " node is not OK in all regions..."))]
                     None]
              | RegionThrows => incomplete ++ [unknownInternal]
              | RegionsOk => incomplete ++ [_respond 200 node None]
              end
          end
      else [_respond 200 node None]
  end.

(** [Responder.search(cName, paged, res, ...args)], [arg] being
    [args[0]], for a cursor whose [count()] and [toArray()] succeed;
    [Interpreter_search] gives the query and [options.limit] after
    [Object.assign].  Closing the cursor in the [finally] block does not
    change the answer. *)
Definition search (cName : string) (paged : Z) (arg : Js.value)
  : http_response :=
  match Interpreter_search arg paged cName with
  | None => unknownInternal
  | Some (query, limit) =>
      match Db_find cName query limit with
      | None => unknownInternal
      | Some c =>
          let dbquery := expandResults c limit search_start in
          match cursor_toArray c with
          | [] => _respond 404 dbquery (Some "No results"%string)
          | _ :: _ => _respond 200 dbquery None
          end
      end
  end.

End Handlers.

(** ** Sample data

    A window around the epoch boundary 256 and stand-ins for the
    collaborators, on which the statements below are exercised. *)

Definition sample_trailer (h : string) (b tc diff t0 st fee : Z)
  : BlockTrailer :=
  mkBlockTrailer "00" b fee tc t0 diff "00" "00" st h.

(** A normal block, older than the boundary. *)
Definition trailer_255 : BlockTrailer := sample_trailer "ff" 255 3 1 90 100 2.

(** The epoch boundary. *)
Definition trailer_256 : BlockTrailer := sample_trailer "a0" 256 0 0 100 100 0.

(** A normal and a pseudo block, newer than the boundary. *)
Definition trailer_257 : BlockTrailer := sample_trailer "a1" 257 5 2 100 110 2.

Definition trailer_258 : BlockTrailer := sample_trailer "a2" 258 0 2 110 115 2.

(** A normal block of difficulty 53, and a state of the scan that has
    counted one hash. *)
Definition trailer_259 : BlockTrailer := sample_trailer "a3" 259 1 53 115 120 2.

Definition one_hash : scan_state := mkScan None 0 0 0 0 0 0 1 0 None [].

(** An epoch boundary whose ledger amount is recorded as zero. *)
Definition trailer_512 : BlockTrailer := sample_trailer "b0" 512 0 0 200 200 0.

Definition sample_window : list BlockTrailer :=
  [trailer_255; trailer_256; trailer_257; trailer_258].

Definition sample_reward (b : Z) : Z := 10.

Definition sample_projected (b : option Z) : Z :=
  match b with
  | None => 5000
  | Some n => 10 * n
  end.

Definition sample_round (v : jsnum) : jsnum := v.

Definition sample_findOne (id : block_id) : findOne_result :=
  if fst id =? 256 then DbDoc (Some 1000)
  else if fst id =? 512 then DbDoc (Some 0)
  else DbNull.

Definition empty_ledger (id : block_id) : findOne_result := DbNull.


Definition sample_expand (nonce : string) : string := nonce.

(** Stand-ins for the collaborators of the other answers, and a node with
    one region that is not OK. *)
Definition sample_stringify (json : list (string * Js.value)) : string :=
  "{}".

Definition sample_byteLength (body : string) : Z :=
  Z.of_nat (String.length body).

Definition sample_ToString (v : Js.value) : string :=
  match v with
  | Js.Str s => s
  | _ => "undefined"
  end.

Definition sample_node : list (string * Js.value) :=
  [("host", Js.Object [("ip", Js.Str "10.0.0.1")]);
   ("connection",
    Js.Object [("eu", Js.Object [("status", Js.Number 0)]);
               ("us", Js.Object [("status", Js.Number 1)])])]%string.

Definition sample_Db_findOne (collection : string)
    (query : list (string * Js.value))
  : option (option (list (string * Js.value))) :=
  if String.eqb collection "network" then Some (Some sample_node)
  else Some None.

Definition sample_Db_find (cName : string) (query : Js.value)
    (limit : option Z) : option cursor :=
  Some (mkCursor 0 []).

Definition sample_Interpreter_search (arg : Js.value) (paged : Z)
    (cName : string) : option (Js.value * option Z) :=
  Some (Js.Object [], Some 3).

Section Chain.

(** ./apiUtils *)
Variable blockReward : Z -> Z.
Variable projectedSupply : option Z -> Z.
Variable round : jsnum -> jsnum.
(** ./apiDatabase *)
Variable findOne : block_id -> findOne_result.
(** mochimo *)
Variable getTfile : Z -> Z -> option (list BlockTrailer).
Variable Trigg_expand : string -> string.

(** ** The scan (lines 125-153) *)

(** One iteration of the [for] loop on [trailer], from the state [st];
    [rTrailer] is the last trailer of the tfile.  [rewards] and [supply] are
    BigInts; the other sums are Numbers, and [+=] and [++] round as
    [Number_add] does.  [stime], [time0], [tcount] and [difficulty] are
    unsigned 32-bit fields, whose difference is exact; [Math.pow(2, d)] is
    the Number [2 ^ d], which is [Infinity] from [d = 1024] on. *)
Definition visit (rTrailer trailer : BlockTrailer) (st : scan_state)
  : scan_state :=
  if nonNeogenesis_block trailer then
    let dT := stime trailer - time0 trailer in
    if negb (tcount trailer =? 0) then
      mkScan (supply st)
             (rewards st
              + (blockReward (bnum trailer) + mfee trailer * tcount trailer))
             (pseudorate st)
             (Number_add (nonNeogenesis st) 1)
             (Number_add (transactions st) (tcount trailer))
             (Number_add (blockTimes st) dT)
             (Number_add (hashesTimes st) dT)
             (Number_add (hashes st) (2 ^ difficulty trailer))
             (Number_add (difficulties st) (difficulty trailer))
             (chain_obj st)
             (queries st)
    else
      mkScan (supply st)
             (rewards st)
             (Number_add (pseudorate st) 1)
             (Number_add (nonNeogenesis st) 1)
             (transactions st)
             (Number_add (blockTimes st) dT)
             (hashesTimes st)
             (hashes st)
             (Number_add (difficulties st) (difficulty trailer))
             (chain_obj st)
             (queries st)
  else if js_not (supply st) then
    let query := id_block (bnum trailer) (bhash trailer) in
    let asked := (queries st ++ [query])%list in
    let failed :=
      mkScan (supply st) (rewards st) (pseudorate st) (nonNeogenesis st)
             (transactions st) (blockTimes st) (hashesTimes st) (hashes st)
             (difficulties st) (chain_obj st) asked in
    match findOne query with
    | DbDoc (Some amount) =>
        if amount =? 0 then failed
        else
          let supply' := amount + rewards st in
          let lostsupply := projectedSupply (Some (bnum rTrailer)) - supply' in
          let maxsupply := projectedSupply None - lostsupply in
          mkScan (Some supply') (rewards st) (pseudorate st)
                 (nonNeogenesis st) (transactions st) (blockTimes st)
                 (hashesTimes st) (hashes st) (difficulties st)
                 (Some (mkChainSupply maxsupply supply')) asked
    | _ => failed
    end
  else st.

Definition scan_init : scan_state :=
  mkScan None 0 0 0 0 0 0 0 0 None [].

(** The whole loop: [index] runs from the last trailer down to the first,
    so the last element of [tfile] is visited first. *)
Definition scan (rTrailer : BlockTrailer) (tfile : list BlockTrailer)
  : scan_state :=
  fold_right (visit rTrailer) scan_init tfile.

(** ** The remaining calculations (lines 154-184) *)

Definition zero_nonce : string :=
  String.concat "" (repeat "0"%string 64).

Definition chain_metrics (rTrailer : BlockTrailer) (st : scan_state)
    (cs : chain_supply) : chain_json :=
  let isNeogenesis := negb (nonNeogenesis_block rTrailer) in
  let blocktime := if isNeogenesis then 0 else stime rTrailer - time0 rTrailer in
  let txfees := if isNeogenesis then 0 else tcount rTrailer * mfee rTrailer in
  let reward := if isNeogenesis then 0 else blockReward (bnum rTrailer) in
  mkChainJson
    (bhash rTrailer) (phash rTrailer) (mroot rTrailer) (nonce rTrailer)
    (if String.eqb (nonce rTrailer) zero_nonce then None
     else Some (Trigg_expand (nonce rTrailer)))
    (bnum rTrailer)
    (mfee rTrailer)
    (time0 rTrailer)
    (stime rTrailer)
    blocktime
    (round (js_div (blockTimes st) (nonNeogenesis st)))
    (tcount rTrailer)
    (round (js_div (transactions st) (nonNeogenesis st)))
    (round (js_div (tcount rTrailer) blocktime))
    (round (js_div (transactions st) (blockTimes st)))
    txfees
    reward
    (if isNeogenesis then 0 else txfees + reward)
    (difficulty rTrailer)
    (round (js_div (difficulties st) (nonNeogenesis st)))
    (if tcount rTrailer =? 0 then JFin 0
     else round (js_div (2 ^ difficulty rTrailer) blocktime))
    (round (js_div (hashes st) (hashesTimes st)))
    (round (js_div (pseudorate st) (nonNeogenesis st)))
    (cs_maxsupply cs)
    (cs_supply cs).

Definition unavailable : response :=
  Respond 404 (Message "chain data unavailable...").

(** Lines 110-190 on a downloaded [tfile]: the answer and the database
    queries that were issued.  [tfile.trailer(-1)] of an empty tfile is
    outside the range of the decoder; the exception ends in
    [Responder.unknownInternal].  The statements below are about non-empty
    tfiles, [older ++ [rTrailer]].

    The check of line 113 compares two Numbers: [blockNumber], which line
    105 made a Number (it is its own rounding), and [Number(rTrailer.bnum)],
    the rounding of a BigInt. *)
Definition chain_calc (blockNumber : Z) (tfile : list BlockTrailer)
  : response * list block_id :=
  match rev tfile with
  | [] => (UnknownInternal, [])
  | rTrailer :: _ =>
      if (blockNumber <? 0)
         || (to_Number blockNumber =? to_Number (bnum rTrailer)) then
        let st := scan rTrailer tfile in
        match chain_obj st with
        | Some cs => (Respond 200 (ChainData (chain_metrics rTrailer st cs)),
                      queries st)
        | None => (unavailable, queries st)
        end
      else (unavailable, [])
  end.


(** ** Vocabulary of the statements *)

(** The classes of the specification: a record is an epoch boundary when
    its position is a multiple of 256, otherwise it is pseudo (no
    transaction) or normal. *)
Definition EpochBoundary (t : BlockTrailer) : bool := bnum t mod 256 =? 0.

Definition Pseudo (t : BlockTrailer) : bool :=
  negb (EpochBoundary t) && (tcount t =? 0).

Definition Normal (t : BlockTrailer) : bool :=
  negb (EpochBoundary t) && negb (tcount t =? 0).

Definition Zsum (l : list Z) : Z := fold_right Z.add 0 l.

(** The sum of [f] over the records of [l] in class [p]. *)
Definition sum_over (p : BlockTrailer -> bool) (f : BlockTrailer -> Z)
    (l : list BlockTrailer) : Z :=
  Zsum (map f (filter p l)).

Definition count_of (p : BlockTrailer -> bool) (l : list BlockTrailer) : Z :=
  Z.of_nat (List.length (filter p l)).

(** The Number sum of [l] as the scan takes it: from the last element to
    the first, rounding after every addition. *)
Definition Number_sum (l : list Z) : Z :=
  fold_right (fun x acc => Number_add acc x) 0 l.

Definition Number_sum_over (p : BlockTrailer -> bool) (f : BlockTrailer -> Z)
    (l : list BlockTrailer) : Z :=
  Number_sum (map f (filter p l)).

(** A counter that [++] steps once for every record of [l] in class [p]. *)
Definition Number_count_of (p : BlockTrailer -> bool)
    (l : list BlockTrailer) : Z :=
  Number_sum_over p (fun _ => 1) l.

Definition solve_time (t : BlockTrailer) : Z := stime t - time0 t.

Definition mining_reward (t : BlockTrailer) : Z :=
  blockReward (bnum t) + mfee t * tcount t.

Definition lookup_key (t : BlockTrailer) : block_id :=
  id_block (bnum t) (bhash t).

(** The ledger amount that the lookup for [t] yields when it succeeds: a
    document is found and its [amount] is truthy ([ng && ng.amount]). *)
Definition ledger_amount (t : BlockTrailer) : option Z :=
  match findOne (lookup_key t) with
  | DbDoc (Some amount) => if amount =? 0 then None else Some amount
  | _ => None
  end.

(** The window covers the positions [start], [start + 1], ... in order. *)
Fixpoint consecutive (start : Z) (l : list BlockTrailer) : Prop :=
  match l with
  | [] => True
  | t :: l' => bnum t = start /\ consecutive (start + 1) l'
  end.

(** The eight running sums of two states agree. *)
Definition same_sums (st st' : scan_state) : Prop :=
  rewards st' = rewards st
  /\ pseudorate st' = pseudorate st
  /\ nonNeogenesis st' = nonNeogenesis st
  /\ transactions st' = transactions st
  /\ blockTimes st' = blockTimes st
  /\ hashesTimes st' = hashesTimes st
  /\ hashes st' = hashes st
  /\ difficulties st' = difficulties st.

(** The record is pseudo or normal. *)
Definition nonBoundary (t : BlockTrailer) : bool := negb (EpochBoundary t).

(** The Number fields of [t] are unsigned 32-bit values, as the decoder of
    a block trailer yields them. *)
Definition uint32_fields (t : BlockTrailer) : Prop :=
  0 <= tcount t < 2 ^ 32
  /\ 0 <= time0 t < 2 ^ 32
  /\ 0 <= stime t < 2 ^ 32
  /\ 0 <= difficulty t < 2 ^ 32.

(** An integer up to which Number arithmetic is exact. *)
Definition safe_integer (z : Z) : Prop := Z.abs z <= 2 ^ 53.

(** Every lookup of [l] fails. *)
Definition lookups_fail (l : list BlockTrailer) : Prop :=
  forall t, In t l -> bnum t mod 256 = 0 -> ledger_amount t = None.

(** The object [chain] always carries the current [supply], and its
    [maxsupply] is the final projected supply less the lost supply. *)
Definition chain_obj_ok (rTrailer : BlockTrailer) (st : scan_state) : Prop :=
  match chain_obj st with
  | None => supply st = None
  | Some cs =>
      supply st = Some (cs_supply cs)
      /\ cs_maxsupply cs
         = projectedSupply None
           - (projectedSupply (Some (bnum rTrailer)) - cs_supply cs)
  end.

(** The request is relative, or asks for the very position of the newest
    record: it passes the check of line 113, so that the tfile is
    scanned. *)
Definition scanned (blockNumber : Z) (rTrailer : BlockTrailer) : Prop :=
  blockNumber < 0 \/ blockNumber = bnum rTrailer.

(** The lookup for [t] returns no document, or a document whose [amount]
    is absent or zero. *)
Definition no_baseline (t : BlockTrailer) : Prop :=
  findOne (lookup_key t) = DbNull
  \/ findOne (lookup_key t) = DbDoc None
  \/ findOne (lookup_key t) = DbDoc (Some 0).

(** ** Numbers *)

Lemma to_Number_safe (z : Z) : safe_integer z -> to_Number z = z.
Proof.
  unfold safe_integer. intros H. unfold to_Number.
  destruct (Z.ltb_spec (Z.abs z) (2 ^ 53)) as [Hlt | Hge]; [reflexivity | ].
  assert (Hz : z = 2 ^ 53 \/ z = - 2 ^ 53) by lia.
  clear - Hz. destruct Hz as [-> | ->]; vm_compute; reflexivity.
Qed.



Lemma Number_add_safe (x y : Z) :
  safe_integer (x + y) -> Number_add x y = x + y.
Proof. apply to_Number_safe. Qed.

Lemma Number_sub_safe (x y : Z) :
  safe_integer (x - y) -> Number_sub x y = x - y.
Proof. apply to_Number_safe. Qed.

Lemma to_Number_opp (z : Z) : to_Number (- z) = - to_Number z.
Proof.
  unfold to_Number. rewrite Z.abs_opp, Z.sgn_opp.
  destruct (Z.abs z <? 2 ^ 53); lia.
Qed.

(** Rounding does not go below the power of two under [z]. *)
Lemma to_Number_lower (z : Z) :
  2 ^ 53 <= z -> 2 ^ Z.log2 z <= to_Number z.
Proof.
  intros H. unfold to_Number.
  rewrite (Z.abs_eq z), (Z.sgn_pos z), Z.mul_1_l by lia.
  destruct (Z.ltb_spec z (2 ^ 53)) as [Hlt | _]; [lia | ].
  assert (Hlog : 53 <= Z.log2 z).
  { change 53 with (Z.log2 (2 ^ 53)). apply Z.log2_le_mono. exact H. }
  set (e := Z.log2 z - 52).
  assert (He : 1 <= e) by (unfold e; lia).
  assert (Hsplit : 2 ^ Z.log2 z = 2 ^ 52 * 2 ^ e).
  { rewrite <- Z.pow_add_r by lia. f_equal. unfold e. lia. }
  assert (Hm : 2 ^ 52 * 2 ^ e <= z).
  { rewrite <- Hsplit. apply Z.log2_spec. lia. }
  assert (Hpow : 0 < 2 ^ e) by (apply Z.pow_pos_nonneg; lia).
  assert (Hq : 2 ^ 52 <= z / 2 ^ e).
  { apply Z.div_le_lower_bound; lia. }
  set (q := z / 2 ^ e) in *.
  set (q' := if z mod 2 ^ e <? 2 ^ (e - 1) then q
             else if 2 ^ (e - 1) <? z mod 2 ^ e then q + 1
             else if Z.even q then q else q + 1).
  assert (Hq' : q <= q').
  { unfold q'. destruct (_ <? _); [lia | ].
    destruct (_ <? _); [lia | ]. destruct (Z.even q); lia. }
  rewrite Hsplit. clear - Hq Hq' Hpow. nia.
Qed.

(** binary64 overflows from [2 ^ 1024 - 2 ^ 970] on. *)
Lemma to_Number_overflow (z : Z) :
  2 ^ 1024 - 2 ^ 970 <= z -> 2 ^ 1024 <= to_Number z.
Proof.
  intros H. destruct (Z_lt_ge_dec z (2 ^ 1024)) as [Hlt | Hge].
  - assert (Hlog : Z.log2 z = 1023).
    { apply Z.log2_unique; [lia | ]. split; [ | exact Hlt].
      clear - H. lia. }
    unfold to_Number.
    rewrite (Z.abs_eq z), (Z.sgn_pos z), Z.mul_1_l, Hlog by lia.
    destruct (Z.ltb_spec z (2 ^ 53)) as [Hsmall | _]; [lia | ].
    change (1023 - 52) with 971. change (971 - 1) with 970.
    pose proof (Z.div_mod z (2 ^ 971) ltac:(lia)) as Hdm.
    pose proof (Z.mod_pos_bound z (2 ^ 971) ltac:(lia)) as Hr.
    assert (Hq : z / 2 ^ 971 = 2 ^ 53 - 1) by lia.
    rewrite Hq.
    destruct (Z.ltb_spec (z mod 2 ^ 971) (2 ^ 970)) as [Hlow | _]; [lia | ].
    destruct (2 ^ 970 <? z mod 2 ^ 971); [lia | ].
    change (Z.even (2 ^ 53 - 1)) with false. cbv iota. lia.
  - pose proof (to_Number_lower z ltac:(lia)) as Hl.
    assert (2 ^ 1024 <= 2 ^ Z.log2 z).
    { apply Z.pow_le_mono_r; [lia | ].
      change 1024 with (Z.log2 (2 ^ 1024)). apply Z.log2_le_mono. lia. }
    lia.
Qed.

(** An infinite sum stays infinite when a finite Number of no great
    magnitude is added. *)
Lemma Number_add_infinite (x y : Z) :
  infinite x = true -> Z.abs y <= 2 ^ 969 ->
  infinite (Number_add x y) = true.
Proof.
  unfold infinite, Number_add. intros Hx Hy. apply Z.leb_le in Hx.
  apply Z.leb_le.
  destruct (Z_le_gt_dec 0 x) as [Hpos | Hneg].
  - pose proof (to_Number_overflow (x + y) ltac:(lia)). lia.
  - pose proof (to_Number_overflow (- (x + y)) ltac:(lia)) as H.
    rewrite to_Number_opp in H. lia.
Qed.

(** From [2 ^ 53] on, neighbouring integers share a Number. *)
Lemma to_Number_rounds :
  to_Number (2 ^ 53 + 1) = 2 ^ 53
  /\ to_Number (2 ^ 53 + 3) = 2 ^ 53 + 4
  /\ to_Number (- (2 ^ 53 + 1)) = - 2 ^ 53
  /\ Number_add (Z.abs (- 2 ^ 53)) 1 = 2 ^ 53
  /\ Number_sub (2 ^ 53 + 768) 767 = 2 ^ 53
  /\ Number_add 1 (2 ^ 53) = 2 ^ 53.
Proof. vm_compute. repeat split. Qed.

(** ** Classification *)

Lemma nonNeogenesis_block_mod (t : BlockTrailer) :
  nonNeogenesis_block t = negb (EpochBoundary t).
Proof.
  unfold nonNeogenesis_block, EpochBoundary.
  change 255 with (Z.ones 8).
  rewrite Z.land_ones by lia.
  reflexivity.
Qed.

Lemma EpochBoundary_true (t : BlockTrailer) :
  EpochBoundary t = true <-> bnum t mod 256 = 0.
Proof. unfold EpochBoundary. apply Z.eqb_eq. Qed.

Lemma EpochBoundary_false (t : BlockTrailer) :
  EpochBoundary t = false <-> bnum t mod 256 <> 0.
Proof. unfold EpochBoundary. apply Z.eqb_neq. Qed.

Lemma classes_exhaustive (t : BlockTrailer) :
  (EpochBoundary t = true /\ Pseudo t = false /\ Normal t = false)
  \/ (EpochBoundary t = false /\ Pseudo t = true /\ Normal t = false)
  \/ (EpochBoundary t = false /\ Pseudo t = false /\ Normal t = true).
Proof.
  unfold Pseudo, Normal.
  destruct (EpochBoundary t), (tcount t =? 0); cbn; auto.
Qed.

(** ** One step of the scan *)

Lemma visit_boundary_found (rTrailer t : BlockTrailer) (st : scan_state) :
  EpochBoundary t = true ->
  js_not (supply st) = true ->
  visit rTrailer t st =
    let asked := (queries st ++ [lookup_key t])%list in
    match ledger_amount t with
    | Some amount =>
        let supply' := amount + rewards st in
        mkScan (Some supply') (rewards st) (pseudorate st)
          (nonNeogenesis st) (transactions st) (blockTimes st)
          (hashesTimes st) (hashes st) (difficulties st)
          (Some (mkChainSupply
                   (projectedSupply None
                    - (projectedSupply (Some (bnum rTrailer)) - supply'))
                   supply'))
          asked
    | None =>
        mkScan (supply st) (rewards st) (pseudorate st) (nonNeogenesis st)
          (transactions st) (blockTimes st) (hashesTimes st) (hashes st)
          (difficulties st) (chain_obj st) asked
    end.
Proof.
  intros Hb Hs. unfold visit, ledger_amount, lookup_key.
  rewrite nonNeogenesis_block_mod, Hb, Hs. cbn.
  destruct (findOne (id_block (bnum t) (bhash t))) as [ | | [amount | ]];
    try reflexivity.
  destruct (amount =? 0); reflexivity.
Qed.

Lemma visit_boundary_settled (rTrailer t : BlockTrailer) (st : scan_state) :
  EpochBoundary t = true ->
  js_not (supply st) = false ->
  visit rTrailer t st = st.
Proof.
  intros Hb Hs. unfold visit.
  rewrite nonNeogenesis_block_mod, Hb, Hs. reflexivity.
Qed.

Lemma visit_pseudo (rTrailer t : BlockTrailer) (st : scan_state) :
  Pseudo t = true ->
  visit rTrailer t st =
    mkScan (supply st) (rewards st) (Number_add (pseudorate st) 1)
      (Number_add (nonNeogenesis st) 1) (transactions st)
      (Number_add (blockTimes st) (solve_time t)) (hashesTimes st)
      (hashes st) (Number_add (difficulties st) (difficulty t))
      (chain_obj st) (queries st).
Proof.
  unfold Pseudo. intros H. apply andb_true_iff in H as [Hb Hc].
  unfold visit. rewrite nonNeogenesis_block_mod, Hb, Hc. reflexivity.
Qed.

Lemma visit_normal (rTrailer t : BlockTrailer) (st : scan_state) :
  Normal t = true ->
  visit rTrailer t st =
    mkScan (supply st) (rewards st + mining_reward t) (pseudorate st)
      (Number_add (nonNeogenesis st) 1)
      (Number_add (transactions st) (tcount t))
      (Number_add (blockTimes st) (solve_time t))
      (Number_add (hashesTimes st) (solve_time t))
      (Number_add (hashes st) (2 ^ difficulty t))
      (Number_add (difficulties st) (difficulty t))
      (chain_obj st) (queries st).
Proof.
  unfold Normal. intros H. apply andb_true_iff in H as [Hb Hc].
  unfold visit. rewrite nonNeogenesis_block_mod, Hb, Hc. reflexivity.
Qed.

(** Reduce the projections of an explicit scan state. *)
Ltac fields :=
  cbn [supply rewards pseudorate nonNeogenesis transactions blockTimes
       hashesTimes hashes difficulties chain_obj queries
       cs_maxsupply cs_supply].

(** The three ways a record can be visited. *)
Ltac by_class t :=
  let Hb := fresh "Hboundary" in
  let Hp := fresh "Hpseudo" in
  let Hn := fresh "Hnormal" in
  destruct (classes_exhaustive t) as [(Hb & Hp & Hn) | [(Hb & Hp & Hn) | (Hb & Hp & Hn)]].

Lemma visit_boundary_sums (rTrailer t : BlockTrailer) (st : scan_state) :
  EpochBoundary t = true -> same_sums st (visit rTrailer t st).
Proof.
  intros Hb. unfold same_sums.
  destruct (js_not (supply st)) eqn:Hs.
  - rewrite (visit_boundary_found rTrailer t st Hb Hs). cbn.
    destruct (ledger_amount t); cbn; repeat split; reflexivity.
  - rewrite (visit_boundary_settled rTrailer t st Hb Hs).
    repeat split; reflexivity.
Qed.

(** ** The whole scan *)

Lemma scan_cons (rTrailer t : BlockTrailer) (l : list BlockTrailer) :
  scan rTrailer (t :: l) = visit rTrailer t (scan rTrailer l).
Proof. reflexivity. Qed.

Lemma scan_app (rTrailer : BlockTrailer) (older newer : list BlockTrailer) :
  scan rTrailer (older ++ newer)
  = fold_right (visit rTrailer) (scan rTrailer newer) older.
Proof. unfold scan. apply fold_right_app. Qed.

Lemma sum_over_cons p f t l :
  sum_over p f (t :: l) = (if p t then f t else 0) + sum_over p f l.
Proof.
  unfold sum_over, Zsum. cbn [filter].
  destruct (p t); cbn [map fold_right]; lia.
Qed.

Lemma count_of_cons p t l :
  count_of p (t :: l) = (if p t then 1 else 0) + count_of p l.
Proof.
  unfold count_of. cbn [filter]. destruct (p t); cbn [List.length]; lia.
Qed.

Lemma Number_sum_over_cons p f (t : BlockTrailer) (l : list BlockTrailer) :
  Number_sum_over p f (t :: l)
  = if p t then Number_add (Number_sum_over p f l) (f t)
    else Number_sum_over p f l.
Proof.
  unfold Number_sum_over, Number_sum. cbn [filter].
  destruct (p t); reflexivity.
Qed.

(** The running sums do not depend on the lookups: they range over the
    whole list that was scanned. *)
Lemma scan_sums (rTrailer : BlockTrailer) (l : list BlockTrailer) :
  rewards (scan rTrailer l) = sum_over Normal mining_reward l
  /\ pseudorate (scan rTrailer l) = Number_count_of Pseudo l
  /\ nonNeogenesis (scan rTrailer l) = Number_count_of nonBoundary l
  /\ transactions (scan rTrailer l) = Number_sum_over Normal tcount l
  /\ blockTimes (scan rTrailer l) = Number_sum_over nonBoundary solve_time l
  /\ hashesTimes (scan rTrailer l) = Number_sum_over Normal solve_time l
  /\ hashes (scan rTrailer l)
     = Number_sum_over Normal (fun t => 2 ^ difficulty t) l
  /\ difficulties (scan rTrailer l)
     = Number_sum_over nonBoundary difficulty l.
Proof.
  induction l as [ | t l IH].
  - cbn. repeat split; reflexivity.
  - destruct IH as (Hr & Hp & Hn & Ht & Hb & Hht & Hh & Hd).
    unfold Number_count_of in *.
    rewrite scan_cons, sum_over_cons, !Number_sum_over_cons.
    change (nonBoundary t) with (negb (EpochBoundary t)).
    by_class t; rewrite Hboundary, Hpseudo, Hnormal; cbn [negb].
    + destruct (visit_boundary_sums rTrailer t (scan rTrailer l) Hboundary)
        as (Er & Ep & En & Et & Eb & Eht & Eh & Ed).
      rewrite Er, Ep, En, Et, Eb, Eht, Eh, Ed, Hr.
      repeat split; (assumption || lia).
    + rewrite (visit_pseudo rTrailer t _ Hpseudo). fields.
      rewrite Hr, Hp, Hn, Hb, Hd. repeat split; (assumption || lia).
    + rewrite (visit_normal rTrailer t _ Hnormal). fields.
      rewrite Hr, Hn, Ht, Hb, Hht, Hh, Hd.
      repeat split; (assumption || reflexivity || lia).
Qed.

Lemma sum_over_bound p f (l : list BlockTrailer) (B : Z) :
  (forall t, In t l -> Z.abs (f t) <= B) ->
  Z.abs (sum_over p f l) <= B * Z.of_nat (List.length l).
Proof.
  induction l as [ | t l IH]; intros H.
  - cbn. lia.
  - rewrite sum_over_cons. cbn [List.length].
    rewrite Nat2Z.inj_succ, Z.mul_succ_r.
    pose proof (H t (or_introl eq_refl)) as Ht.
    assert (Hl : Z.abs (sum_over p f l) <= B * Z.of_nat (List.length l)).
    { apply IH. intros u Hu. apply H. right. exact Hu. }
    destruct (p t); lia.
Qed.

Lemma sum_over_nonneg p f (l : list BlockTrailer) :
  (forall t, In t l -> 0 <= f t) -> 0 <= sum_over p f l.
Proof.
  induction l as [ | t l IH]; intros H.
  - cbn. lia.
  - rewrite sum_over_cons.
    pose proof (H t (or_introl eq_refl)) as Ht.
    assert (Hl : 0 <= sum_over p f l).
    { apply IH. intros u Hu. apply H. right. exact Hu. }
    destruct (p t); lia.
Qed.

(** A Number sum is exact when its terms are bounded by [B] and there are
    few enough of them. *)
Lemma Number_sum_over_bounded p f (l : list BlockTrailer) (B : Z) :
  (forall t, In t l -> Z.abs (f t) <= B) ->
  B * Z.of_nat (List.length l) <= 2 ^ 53 ->
  Number_sum_over p f l = sum_over p f l.
Proof.
  induction l as [ | t l IH]; intros H Hlen; [reflexivity | ].
  pose proof (sum_over_bound p f (t :: l) B H) as Hb.
  pose proof (H t (or_introl eq_refl)) as Ht.
  cbn [List.length] in Hlen. rewrite Nat2Z.inj_succ, Z.mul_succ_r in Hlen.
  rewrite Number_sum_over_cons, IH.
  - rewrite sum_over_cons in *. destruct (p t); [ | lia].
    rewrite Number_add_safe; [lia | ].
    unfold safe_integer. cbn [List.length] in Hb.
    rewrite Nat2Z.inj_succ, Z.mul_succ_r in Hb. lia.
  - intros u Hu. apply H. right. exact Hu.
  - lia.
Qed.

(** A Number sum of non-negative terms is exact as long as the exact sum
    is a safe integer. *)
Lemma Number_sum_over_nonneg p f (l : list BlockTrailer) :
  (forall t, In t l -> 0 <= f t) ->
  sum_over p f l <= 2 ^ 53 ->
  Number_sum_over p f l = sum_over p f l.
Proof.
  induction l as [ | t l IH]; intros H Hsum; [reflexivity | ].
  pose proof (H t (or_introl eq_refl)) as Ht.
  assert (Hl : 0 <= sum_over p f l).
  { apply sum_over_nonneg. intros u Hu. apply H. right. exact Hu. }
  rewrite sum_over_cons in Hsum.
  rewrite Number_sum_over_cons, IH.
  - rewrite sum_over_cons. destruct (p t); [ | lia].
    rewrite Number_add_safe; [lia | ]. unfold safe_integer. lia.
  - intros u Hu. apply H. right. exact Hu.
  - destruct (p t); lia.
Qed.

Lemma sum_over_ones p (l : list BlockTrailer) :
  sum_over p (fun _ => 1) l = count_of p l.
Proof.
  induction l as [ | t l IH]; [reflexivity | ].
  rewrite sum_over_cons, count_of_cons, IH. reflexivity.
Qed.

(** On at most [2 ^ 21] trailers with 32-bit fields whose hash counts sum
    to a safe integer, every Number sum of the scan is the exact sum. *)
Lemma Number_sums_exact (l : list BlockTrailer) :
  (forall t, In t l -> uint32_fields t) ->
  Z.of_nat (List.length l) <= 2 ^ 21 ->
  sum_over Normal (fun t => 2 ^ difficulty t) l <= 2 ^ 53 ->
  Number_count_of Pseudo l = count_of Pseudo l
  /\ Number_count_of nonBoundary l = count_of nonBoundary l
  /\ Number_sum_over Normal tcount l = sum_over Normal tcount l
  /\ Number_sum_over nonBoundary solve_time l
     = sum_over nonBoundary solve_time l
  /\ Number_sum_over Normal solve_time l = sum_over Normal solve_time l
  /\ Number_sum_over Normal (fun t => 2 ^ difficulty t) l
     = sum_over Normal (fun t => 2 ^ difficulty t) l
  /\ Number_sum_over nonBoundary difficulty l
     = sum_over nonBoundary difficulty l.
Proof.
  intros Hf Hlen Hhash.
  assert (Hsum : forall p f,
            (forall t, In t l -> Z.abs (f t) <= 2 ^ 32) ->
            Number_sum_over p f l = sum_over p f l).
  { intros p f H. apply (Number_sum_over_bounded p f l (2 ^ 32) H). lia. }
  assert (Hcount : forall p, Number_count_of p l = count_of p l).
  { intros p. unfold Number_count_of. rewrite Hsum, sum_over_ones.
    - reflexivity.
    - intros t _. lia. }
  assert (Htc : forall p, Number_sum_over p tcount l = sum_over p tcount l).
  { intros p. apply Hsum. intros t Ht.
    destruct (Hf t Ht) as (H1 & H2 & H3 & H4). lia. }
  assert (Hst : forall p,
            Number_sum_over p solve_time l = sum_over p solve_time l).
  { intros p. apply Hsum. intros t Ht.
    destruct (Hf t Ht) as (H1 & H2 & H3 & H4). unfold solve_time. lia. }
  assert (Hdf : forall p,
            Number_sum_over p difficulty l = sum_over p difficulty l).
  { intros p. apply Hsum. intros t Ht.
    destruct (Hf t Ht) as (H1 & H2 & H3 & H4). lia. }
  repeat split; auto.
  apply Number_sum_over_nonneg; [ | exact Hhash].
  intros t _. apply Z.pow_nonneg. lia.
Qed.

(** Once [supply] is truthy, older records leave [supply], [chain] and the
    log of queries alone. *)
Lemma visit_settled (rTrailer t : BlockTrailer) (st : scan_state) :
  js_not (supply st) = false ->
  supply (visit rTrailer t st) = supply st
  /\ chain_obj (visit rTrailer t st) = chain_obj st
  /\ queries (visit rTrailer t st) = queries st.
Proof.
  intros Hs. by_class t.
  - rewrite (visit_boundary_settled rTrailer t st Hboundary Hs). auto.
  - rewrite (visit_pseudo rTrailer t st Hpseudo). auto.
  - rewrite (visit_normal rTrailer t st Hnormal). auto.
Qed.

Lemma scan_settled (rTrailer : BlockTrailer) (older : list BlockTrailer)
    (st : scan_state) :
  js_not (supply st) = false ->
  supply (fold_right (visit rTrailer) st older) = supply st
  /\ chain_obj (fold_right (visit rTrailer) st older) = chain_obj st
  /\ queries (fold_right (visit rTrailer) st older) = queries st.
Proof.
  intros Hs. induction older as [ | t older IH]; cbn [fold_right]; auto.
  destruct IH as (E1 & E2 & E3).
  destruct (visit_settled rTrailer t (fold_right (visit rTrailer) st older))
    as (F1 & F2 & F3).
  - rewrite E1. exact Hs.
  - rewrite F1, F2, F3. auto.
Qed.

Lemma lookups_fail_cons t l :
  lookups_fail (t :: l) ->
  (bnum t mod 256 = 0 -> ledger_amount t = None) /\ lookups_fail l.
Proof.
  intros H. split.
  - apply H. left. reflexivity.
  - intros u Hu. apply H. right. exact Hu.
Qed.

(** While every lookup fails the scan finds nothing, and asks once for
    each boundary record, newest first. *)
Lemma scan_lookups_fail (rTrailer : BlockTrailer) (l : list BlockTrailer) :
  lookups_fail l ->
  supply (scan rTrailer l) = None
  /\ chain_obj (scan rTrailer l) = None
  /\ queries (scan rTrailer l)
     = map lookup_key (filter EpochBoundary (rev l)).
Proof.
  induction l as [ | t l IH]; intros Hf.
  - cbn. auto.
  - apply lookups_fail_cons in Hf as [Ht Hl].
    destruct (IH Hl) as (Es & Ec & Eq).
    rewrite scan_cons. cbn [rev]. rewrite filter_app, map_app. cbn [filter].
    by_class t; rewrite Hboundary.
    + rewrite visit_boundary_found by (try rewrite Es; auto).
      rewrite Ht by (apply EpochBoundary_true; exact Hboundary).
      cbn. rewrite Es, Ec, Eq. auto.
    + rewrite (visit_pseudo rTrailer t _ Hpseudo). cbn.
      rewrite app_nil_r. auto.
    + rewrite (visit_normal rTrailer t _ Hnormal). cbn.
      rewrite app_nil_r. auto.
Qed.

Lemma visit_chain_obj_ok (rTrailer t : BlockTrailer) (st : scan_state) :
  chain_obj_ok rTrailer st -> chain_obj_ok rTrailer (visit rTrailer t st).
Proof.
  intros Hok. by_class t.
  - destruct (js_not (supply st)) eqn:Hs.
    + rewrite (visit_boundary_found rTrailer t st Hboundary Hs). cbn.
      destruct (ledger_amount t); unfold chain_obj_ok; cbn; auto.
    + rewrite (visit_boundary_settled rTrailer t st Hboundary Hs). exact Hok.
  - rewrite (visit_pseudo rTrailer t st Hpseudo). exact Hok.
  - rewrite (visit_normal rTrailer t st Hnormal). exact Hok.
Qed.

Lemma scan_chain_obj_ok (rTrailer : BlockTrailer) (l : list BlockTrailer) :
  chain_obj_ok rTrailer (scan rTrailer l).
Proof.
  induction l as [ | t l IH].
  - reflexivity.
  - rewrite scan_cons. apply visit_chain_obj_ok. exact IH.
Qed.

(** ** The answer *)

Lemma chain_calc_scanned (blockNumber : Z) (older : list BlockTrailer)
    (rTrailer : BlockTrailer) :
  scanned blockNumber rTrailer ->
  chain_calc blockNumber (older ++ [rTrailer]) =
    let st := scan rTrailer (older ++ [rTrailer]) in
    match chain_obj st with
    | Some cs => (Respond 200 (ChainData (chain_metrics rTrailer st cs)),
                  queries st)
    | None => (unavailable, queries st)
    end.
Proof.
  intros Hs. unfold chain_calc. rewrite rev_unit.
  replace ((blockNumber <? 0)
           || (to_Number blockNumber =? to_Number (bnum rTrailer)))
    with true.
  - reflexivity.
  - symmetry. apply orb_true_iff.
    destruct Hs as [Hs | Hs]; [left; apply Z.ltb_lt; exact Hs | right].
    rewrite Hs. apply Z.eqb_refl.
Qed.


(** The tfile is scanned, or the answer is the 404 without any query. *)
Lemma chain_calc_cases (blockNumber : Z) (older : list BlockTrailer)
    (rTrailer : BlockTrailer) :
  chain_calc blockNumber (older ++ [rTrailer]) =
    (let st := scan rTrailer (older ++ [rTrailer]) in
     match chain_obj st with
     | Some cs =>
         (Respond 200 (ChainData (chain_metrics rTrailer st cs)),
          queries st)
     | None => (unavailable, queries st)
     end)
  \/ chain_calc blockNumber (older ++ [rTrailer]) = (unavailable, []).
Proof.
  unfold chain_calc. rewrite rev_unit.
  destruct ((blockNumber <? 0)
            || (to_Number blockNumber =? to_Number (bnum rTrailer)));
    [left | right]; reflexivity.
Qed.

Lemma chain_calc_200 (blockNumber : Z) (older : list BlockTrailer)
    (rTrailer : BlockTrailer) (json : chain_json) :
  fst (chain_calc blockNumber (older ++ [rTrailer]))
    = Respond 200 (ChainData json) ->
  exists cs,
    chain_obj (scan rTrailer (older ++ [rTrailer])) = Some cs
    /\ json = chain_metrics rTrailer (scan rTrailer (older ++ [rTrailer])) cs.
Proof.
  unfold chain_calc. rewrite rev_unit.
  destruct ((blockNumber <? 0)
            || (to_Number blockNumber =? to_Number (bnum rTrailer))).
  - destruct (chain_obj (scan rTrailer (older ++ [rTrailer]))) as [cs | ];
      cbn [fst]; intros H.
    + exists cs. split; [reflexivity | ]. congruence.
    + discriminate H.
  - cbn [fst]. intros H. discriminate H.
Qed.

(** ** The supply *)

(** C1.  Let the window be [older ++ boundary :: newer], where [boundary]
    is an epoch-boundary record whose lookup is the first to succeed, with
    ledger amount [amount]: every lookup of [newer] fails.  When the scan
    has visited [boundary], [supply] is [amount] plus the sum over the
    normal records of [newer] of [blockReward bnum + mfee * tcount]; pseudo
    and boundary records of [newer] are not part of the sum.  This is the
    supply of the answer (a BigInt zero would be taken for a supply that is
    still missing, so the sum is taken to be non-zero there). *)
Theorem supply_first_success (blockNumber : Z)
    (older newer : list BlockTrailer) (boundary : BlockTrailer)
    (amount : Z) :
  let tfile := (older ++ boundary :: newer)%list in
  let rTrailer := last tfile boundary in
  let found := amount + sum_over Normal mining_reward newer in
  bnum boundary mod 256 = 0 ->
  findOne (lookup_key boundary) = DbDoc (Some amount) ->
  amount <> 0 ->
  lookups_fail newer ->
  supply (scan rTrailer (boundary :: newer)) = Some found
  /\ (scanned blockNumber rTrailer ->
      found <> 0 ->
      exists json,
        fst (chain_calc blockNumber tfile) = Respond 200 (ChainData json)
        /\ json_supply json = found).
Proof.
  intros tfile rTrailer found Hb Hdoc Hamount Hfail.
  assert (Hledger : ledger_amount boundary = Some amount).
  { unfold ledger_amount. rewrite Hdoc.
    apply Z.eqb_neq in Hamount. rewrite Hamount. reflexivity. }
  apply EpochBoundary_true in Hb.
  destruct (scan_lookups_fail rTrailer newer Hfail) as (Es & Ec & Eq).
  destruct (scan_sums rTrailer newer) as (Er & _).
  assert (Estep : scan rTrailer (boundary :: newer)
                  = mkScan (Some found) (rewards (scan rTrailer newer))
                      (pseudorate (scan rTrailer newer))
                      (nonNeogenesis (scan rTrailer newer))
                      (transactions (scan rTrailer newer))
                      (blockTimes (scan rTrailer newer))
                      (hashesTimes (scan rTrailer newer))
                      (hashes (scan rTrailer newer))
                      (difficulties (scan rTrailer newer))
                      (Some (mkChainSupply
                               (projectedSupply None
                                - (projectedSupply (Some (bnum rTrailer))
                                   - found))
                               found))
                      (queries (scan rTrailer newer) ++ [lookup_key boundary])).
  { rewrite scan_cons, visit_boundary_found by (try rewrite Es; auto).
    rewrite Hledger. cbn zeta. unfold found. rewrite Er. reflexivity. }
  split.
  - rewrite Estep. reflexivity.
  - intros Hscan Hfound.
    assert (Hlast : tfile = (removelast tfile ++ [rTrailer])%list).
    { apply app_removelast_last. unfold tfile.
      destruct older; discriminate. }
    rewrite Hlast, (chain_calc_scanned _ _ _ Hscan), <- Hlast. cbn zeta.
    unfold tfile at 1 2 3. rewrite scan_app.
    destruct (scan_settled rTrailer older (scan rTrailer (boundary :: newer)))
      as (_ & Fc & _).
    { rewrite Estep. cbn. apply Z.eqb_neq. exact Hfound. }
    rewrite Fc, Estep. fields.
    eexists. split; reflexivity.
Qed.

(** C2, as the code computes it.  Whenever the answer carries chain data,
    its [maxsupply] is the final projected supply less the lost supply,
    [projectedSupply() - (projectedSupply(rTrailer.bnum) - supply)], where
    [rTrailer] is the newest (last) record of the window. *)
Theorem maxsupply_formula (blockNumber : Z) (older : list BlockTrailer)
    (rTrailer : BlockTrailer) (json : chain_json) :
  fst (chain_calc blockNumber (older ++ [rTrailer]))
    = Respond 200 (ChainData json) ->
  json_maxsupply json
  = projectedSupply None
    - (projectedSupply (Some (bnum rTrailer)) - json_supply json).
Proof.
  intros H. apply chain_calc_200 in H as (cs & Hcs & ->).
  pose proof (scan_chain_obj_ok rTrailer (older ++ [rTrailer])) as Hok.
  unfold chain_obj_ok in Hok. rewrite Hcs in Hok.
  destruct Hok as [_ Hmax]. exact Hmax.
Qed.

(** ** The search fails *)

Lemma one_step_of_ceiling (start : Z) :
  (start + 256) / 256 - (start + 255) / 256
  = if start mod 256 =? 0 then 1 else 0.
Proof.
  destruct (Z.eqb_spec (start mod 256) 0) as [E | E]; clear - E;
    Z.to_euclidean_division_equations; lia.
Qed.

(** In a run of consecutive positions the multiples of 256 are counted by
    a difference of two ceilings. *)
Lemma boundaries_of_consecutive (l : list BlockTrailer) (start : Z) :
  consecutive start l ->
  count_of EpochBoundary l
  = (start + Z.of_nat (List.length l) + 255) / 256 - (start + 255) / 256.
Proof.
  revert start. induction l as [ | t l IH]; intros start Hc.
  - cbn [List.length]. unfold count_of. cbn. rewrite Z.add_0_r. lia.
  - destruct Hc as [Ht Hl].
    rewrite count_of_cons, (IH _ Hl). unfold EpochBoundary at 1.
    rewrite Ht, <- one_step_of_ceiling.
    cbn [List.length]. rewrite Nat2Z.inj_succ.
    replace (start + 1 + Z.of_nat (List.length l) + 255)
      with (start + Z.succ (Z.of_nat (List.length l)) + 255) by lia.
    replace (start + 1 + 255) with (start + 256) by lia.
    lia.
Qed.

Lemma boundaries_bound (l : list BlockTrailer) (start : Z) :
  consecutive start l ->
  count_of EpochBoundary l <= Z.of_nat (List.length l) / 256 + 1.
Proof.
  intros Hc. rewrite (boundaries_of_consecutive l start Hc).
  generalize (Z.of_nat (List.length l)). intros n. clear - start n.
  Z.to_euclidean_division_equations. lia.
Qed.

Lemma filter_none (p : BlockTrailer -> bool) (l : list BlockTrailer) :
  (forall t, In t l -> p t = false) -> filter p l = [].
Proof.
  induction l as [ | t l IH]; intros H; cbn [filter].
  - reflexivity.
  - rewrite (H t) by (left; reflexivity).
    apply IH. intros u Hu. apply H. right. exact Hu.
Qed.

Lemma count_of_rev (p : BlockTrailer -> bool) (l : list BlockTrailer) :
  count_of p (rev l) = count_of p l.
Proof.
  unfold count_of. f_equal.
  induction l as [ | t l IH]; [reflexivity | ].
  cbn [rev filter]. rewrite filter_app, length_app, IH. cbn [filter].
  destruct (p t); cbn [List.length]; lia.
Qed.

Lemma lookups_fail_answers (blockNumber : Z) (older : list BlockTrailer)
    (rTrailer : BlockTrailer) :
  let tfile := (older ++ [rTrailer])%list in
  lookups_fail tfile ->
  chain_calc blockNumber tfile
  = (unavailable, map lookup_key (filter EpochBoundary (rev tfile)))
  \/ chain_calc blockNumber tfile = (unavailable, []).
Proof.
  intros tfile Hfail.
  destruct (scan_lookups_fail rTrailer tfile Hfail) as (_ & Ec & Eq).
  destruct (chain_calc_cases blockNumber older rTrailer) as [Hc | Hc];
    fold tfile in Hc; rewrite Hc.
  - left. cbn zeta. rewrite Ec, Eq. reflexivity.
  - right. reflexivity.
Qed.

Lemma lookups_fail_unavailable (blockNumber : Z) (older : list BlockTrailer)
    (rTrailer : BlockTrailer) :
  lookups_fail (older ++ [rTrailer]) ->
  fst (chain_calc blockNumber (older ++ [rTrailer])) = unavailable.
Proof.
  intros Hfail.
  destruct (lookups_fail_answers blockNumber older rTrailer Hfail)
    as [-> | ->]; reflexivity.
Qed.

(** C3.  On a non-empty window [older ++ [rTrailer]] whose boundary
    lookups all fail, the answer is the 404 "unavailable".  When the scan
    runs, the database is asked exactly once for each epoch-boundary record,
    newest first; on a window of consecutive positions that is at most
    [count / 256 + 1] queries; on a window without any epoch-boundary
    record the database is not asked at all. *)
Theorem all_lookups_fail (blockNumber : Z) (older : list BlockTrailer)
    (rTrailer : BlockTrailer) :
  let tfile := (older ++ [rTrailer])%list in
  let answer := chain_calc blockNumber tfile in
  lookups_fail tfile ->
  fst answer = unavailable
  /\ (scanned blockNumber rTrailer ->
      snd answer = map lookup_key (filter EpochBoundary (rev tfile)))
  /\ (forall start, consecutive start tfile ->
      Z.of_nat (List.length (snd answer))
      <= Z.of_nat (List.length tfile) / 256 + 1)
  /\ ((forall t, In t tfile -> bnum t mod 256 <> 0) -> snd answer = []).
Proof.
  intros tfile answer Hfail.
  destruct (scan_lookups_fail rTrailer tfile Hfail) as (_ & Ec & Eq).
  assert (Hcases :
    answer = (unavailable, map lookup_key (filter EpochBoundary (rev tfile)))
    \/ answer = (unavailable, [])).
  { exact (lookups_fail_answers blockNumber older rTrailer Hfail). }
  assert (Hnone : (forall t, In t tfile -> bnum t mod 256 <> 0) ->
                  filter EpochBoundary (rev tfile) = []).
  { intros Hno. apply filter_none. intros t Ht.
    apply EpochBoundary_false, Hno, in_rev, Ht. }
  repeat split.
  - destruct Hcases as [-> | ->]; reflexivity.
  - intros Hs. unfold answer, tfile.
    rewrite (chain_calc_scanned _ _ _ Hs). cbn zeta. fold tfile.
    rewrite Ec, Eq. reflexivity.
  - intros start Hc.
    pose proof (boundaries_bound tfile start Hc) as Hbound.
    destruct Hcases as [-> | ->]; cbn [snd].
    + rewrite length_map. fold (count_of EpochBoundary (rev tfile)).
      rewrite count_of_rev. exact Hbound.
    + cbn [List.length].
      pose proof (Z.div_pos (Z.of_nat (List.length tfile)) 256).
      lia.
  - intros Hno. destruct Hcases as [-> | ->]; cbn [snd].
    + rewrite (Hnone Hno). reflexivity.
    + reflexivity.
Qed.


(** ** The running sums *)

(** C5.  A record whose position is not a multiple of 256 increments
    [nonNeogenesis] and adds its solve time to [blockTimes] and its
    difficulty to [difficulties]; without transactions it increments
    [pseudorate] and nothing else; with transactions it adds [tcount] to
    [transactions], its solve time to [hashesTimes], [2 ^ difficulty] to
    [hashes] and [blockReward bnum + mfee * tcount] to [rewards].  A record
    whose position is a multiple of 256 leaves the eight sums as they are.
    [rewards] is a BigInt; the other sums are Numbers, to which [+=] and
    [++] add as [Number_add] does: exactly, whenever the exact sum is a safe
    integer (at most [2 ^ 53] in magnitude). *)
Theorem visit_accumulates (rTrailer t : BlockTrailer) (st : scan_state) :
  let st' := visit rTrailer t st in
  (bnum t mod 256 <> 0 ->
   nonNeogenesis st' = Number_add (nonNeogenesis st) 1
   /\ blockTimes st' = Number_add (blockTimes st) (stime t - time0 t)
   /\ difficulties st' = Number_add (difficulties st) (difficulty t)
   /\ (tcount t = 0 ->
       pseudorate st' = Number_add (pseudorate st) 1
       /\ transactions st' = transactions st
       /\ hashesTimes st' = hashesTimes st
       /\ hashes st' = hashes st
       /\ rewards st' = rewards st)
   /\ (tcount t <> 0 ->
       pseudorate st' = pseudorate st
       /\ transactions st' = Number_add (transactions st) (tcount t)
       /\ hashesTimes st' = Number_add (hashesTimes st) (stime t - time0 t)
       /\ hashes st' = Number_add (hashes st) (2 ^ difficulty t)
       /\ rewards st'
          = rewards st + (blockReward (bnum t) + mfee t * tcount t)))
  /\ (bnum t mod 256 = 0 ->
      rewards st' = rewards st
      /\ pseudorate st' = pseudorate st
      /\ nonNeogenesis st' = nonNeogenesis st
      /\ transactions st' = transactions st
      /\ blockTimes st' = blockTimes st
      /\ hashesTimes st' = hashesTimes st
      /\ hashes st' = hashes st
      /\ difficulties st' = difficulties st)
  /\ (forall x y, Z.abs (x + y) <= 2 ^ 53 -> Number_add x y = x + y).
Proof.
  intros st'. split; [ | split].
  - intros Hnb. apply EpochBoundary_false in Hnb.
    destruct (Z.eq_dec (tcount t) 0) as [Hc | Hc].
    + assert (Hp : Pseudo t = true).
      { unfold Pseudo. rewrite Hnb, Hc. reflexivity. }
      unfold st'. rewrite (visit_pseudo rTrailer t st Hp). fields.
      repeat split; try reflexivity; contradiction.
    + assert (Hn : Normal t = true).
      { unfold Normal. rewrite Hnb.
        apply Z.eqb_neq in Hc. rewrite Hc. reflexivity. }
      unfold st'. rewrite (visit_normal rTrailer t st Hn). fields.
      repeat split; try reflexivity; contradiction.
  - intros Hb. apply EpochBoundary_true in Hb.
    exact (visit_boundary_sums rTrailer t st Hb).
  - exact Number_add_safe.
Qed.

(** C10.  The scan of the window [older ++ newer ++ [rTrailer]] visits
    every record.  When the records [newer ++ [rTrailer]] have determined a
    (non-zero) supply, the records of [older] cause no further query and
    leave the supply alone; the eight sums nevertheless range over the whole
    window, and so do the averages of the answer.  [rewards] is a BigInt
    sum; the other sums are the Number sums that the scan takes from the last
    record to the first.  They are the exact sums when the window has at
    most [2 ^ 21] records, the Number fields are 32-bit values and the hash
    counts [2 ^ difficulty] of the normal records sum to at most
    [2 ^ 53]. *)
Theorem scan_visits_every_record (blockNumber : Z)
    (older newer : list BlockTrailer) (rTrailer : BlockTrailer) :
  let recent := (newer ++ [rTrailer])%list in
  let tfile := (older ++ recent)%list in
  let st := scan rTrailer tfile in
  (forall found,
     supply (scan rTrailer recent) = Some found -> found <> 0 ->
     supply st = Some found
     /\ chain_obj st = chain_obj (scan rTrailer recent)
     /\ queries st = queries (scan rTrailer recent))
  /\ (rewards st = sum_over Normal mining_reward tfile
      /\ pseudorate st = Number_count_of Pseudo tfile
      /\ nonNeogenesis st = Number_count_of nonBoundary tfile
      /\ transactions st = Number_sum_over Normal tcount tfile
      /\ blockTimes st = Number_sum_over nonBoundary solve_time tfile
      /\ hashesTimes st = Number_sum_over Normal solve_time tfile
      /\ hashes st
         = Number_sum_over Normal (fun t => 2 ^ difficulty t) tfile
      /\ difficulties st = Number_sum_over nonBoundary difficulty tfile)
  /\ (forall json,
        fst (chain_calc blockNumber tfile) = Respond 200 (ChainData json) ->
        json_blocktime_avg json
        = round (js_div (Number_sum_over nonBoundary solve_time tfile)
                        (Number_count_of nonBoundary tfile))
        /\ json_tcount_avg json
           = round (js_div (Number_sum_over Normal tcount tfile)
                           (Number_count_of nonBoundary tfile))
        /\ json_tcountpsec_avg json
           = round (js_div (Number_sum_over Normal tcount tfile)
                           (Number_sum_over nonBoundary solve_time tfile))
        /\ json_difficulty_avg json
           = round (js_div (Number_sum_over nonBoundary difficulty tfile)
                           (Number_count_of nonBoundary tfile))
        /\ json_hashrate_avg json
           = round (js_div (Number_sum_over Normal
                              (fun t => 2 ^ difficulty t) tfile)
                           (Number_sum_over Normal solve_time tfile))
        /\ json_pseudorate_avg json
           = round (js_div (Number_count_of Pseudo tfile)
                           (Number_count_of nonBoundary tfile)))
  /\ ((forall t, In t tfile -> uint32_fields t) ->
      Z.of_nat (List.length tfile) <= 2 ^ 21 ->
      sum_over Normal (fun t => 2 ^ difficulty t) tfile <= 2 ^ 53 ->
      Number_count_of Pseudo tfile = count_of Pseudo tfile
      /\ Number_count_of nonBoundary tfile = count_of nonBoundary tfile
      /\ Number_sum_over Normal tcount tfile = sum_over Normal tcount tfile
      /\ Number_sum_over nonBoundary solve_time tfile
         = sum_over nonBoundary solve_time tfile
      /\ Number_sum_over Normal solve_time tfile
         = sum_over Normal solve_time tfile
      /\ Number_sum_over Normal (fun t => 2 ^ difficulty t) tfile
         = sum_over Normal (fun t => 2 ^ difficulty t) tfile
      /\ Number_sum_over nonBoundary difficulty tfile
         = sum_over nonBoundary difficulty tfile).
Proof.
  intros recent tfile st.
  pose proof (scan_sums rTrailer tfile) as Hsums. fold st in Hsums.
  split; [ | split; [ | split]].
  - intros found Hfound Hnz. unfold st, tfile. rewrite scan_app.
    destruct (scan_settled rTrailer older (scan rTrailer recent))
      as (Es & Ec & Eq).
    { rewrite Hfound. cbn. apply Z.eqb_neq. exact Hnz. }
    rewrite Es, Ec, Eq, Hfound. auto.
  - exact Hsums.
  - intros json Hjson.
    unfold tfile, recent in Hjson. rewrite app_assoc in Hjson.
    apply chain_calc_200 in Hjson as (cs & _ & ->).
    rewrite <- app_assoc. fold recent. fold tfile. fold st.
    destruct Hsums as (Hr & Hp & Hn & Ht & Hb & Hht & Hh & Hd).
    unfold chain_metrics.
    cbn [json_blocktime_avg json_tcount_avg json_tcountpsec_avg
         json_difficulty_avg json_hashrate_avg json_pseudorate_avg].
    rewrite Hp, Hn, Ht, Hb, Hht, Hh, Hd.
    repeat split; reflexivity.
  - apply Number_sums_exact.
Qed.

(** ** Lookups that find no amount *)

Lemma no_baseline_ledger (t : BlockTrailer) :
  no_baseline t -> ledger_amount t = None.
Proof.
  unfold no_baseline, ledger_amount.
  intros [-> | [-> | ->]]; reflexivity.
Qed.

(** C9.  At an epoch-boundary record reached with [supply] undefined, a
    lookup that returns no document, or a document whose amount is absent
    or zero, is a failed lookup: the query is logged, [supply] stays
    undefined and [chain] unset, and the next older boundary record is
    looked up in turn.  A window all of whose boundary lookups end this way
    is answered with the 404 "unavailable". *)
Theorem failed_lookup_keeps_searching (blockNumber : Z)
    (older : list BlockTrailer) (rTrailer t : BlockTrailer)
    (st : scan_state) :
  let st' := visit rTrailer t st in
  let tfile := (older ++ [rTrailer])%list in
  (bnum t mod 256 = 0 -> supply st = None -> no_baseline t ->
   supply st' = None
   /\ chain_obj st' = chain_obj st
   /\ queries st' = (queries st ++ [lookup_key t])%list
   /\ forall next, bnum next mod 256 = 0 ->
        queries (visit rTrailer next st')
        = (queries st' ++ [lookup_key next])%list)
  /\ ((forall u, In u tfile -> bnum u mod 256 = 0 -> no_baseline u) ->
      fst (chain_calc blockNumber tfile) = unavailable).
Proof.
  intros st' tfile. split.
  - intros Hb Hs Hno. apply EpochBoundary_true in Hb.
    assert (Est : st' = mkScan (supply st) (rewards st) (pseudorate st)
                          (nonNeogenesis st) (transactions st)
                          (blockTimes st) (hashesTimes st) (hashes st)
                          (difficulties st) (chain_obj st)
                          (queries st ++ [lookup_key t])).
    { unfold st'. rewrite visit_boundary_found by (try rewrite Hs; auto).
      rewrite (no_baseline_ledger t Hno). reflexivity. }
    rewrite Est. fields. repeat split; auto.
    intros next Hnext. apply EpochBoundary_true in Hnext.
    rewrite visit_boundary_found by (fields; try rewrite Hs; auto).
    cbn zeta. destruct (ledger_amount next); reflexivity.
  - intros Hall.
    assert (Hfail : lookups_fail tfile).
    { intros u Hu Hb. apply no_baseline_ledger, Hall; assumption. }
    exact (lookups_fail_unavailable blockNumber older rTrailer Hfail).
Qed.

(** ** Zero divisors *)

Lemma js_div_zero (x : Z) :
  js_div x 0 = (if x =? 0 then JNaN else if 0 <? x then JPosInf else JNegInf)
  /\ js_finite (js_div x 0) = false.
Proof.
  unfold js_div. cbn [Z.eqb].
  destruct (x =? 0); [ | destruct (0 <? x)]; split; reflexivity.
Qed.

(** C8.  When the scan has found a supply the answer is the 200 with the
    chain data, whatever the divisors are.  The block time of an
    epoch-boundary target is 0.  With a block time of 0 the value handed to
    [round] for [tcountpsec] is [tcount / 0], which is NaN or an infinity;
    the same holds for the hash rate of a target with transactions, and
    for the averages when [nonNeogenesis], [blockTimes] or [hashesTimes] is
    0: no division is guarded. *)
Theorem zero_divisors_pass_through (blockNumber : Z)
    (older : list BlockTrailer) (rTrailer : BlockTrailer)
    (cs : chain_supply) :
  let tfile := (older ++ [rTrailer])%list in
  let st := scan rTrailer tfile in
  scanned blockNumber rTrailer ->
  chain_obj st = Some cs ->
  exists json,
    fst (chain_calc blockNumber tfile) = Respond 200 (ChainData json)
    /\ (bnum rTrailer mod 256 = 0 -> json_blocktime json = 0)
    /\ (json_blocktime json = 0 ->
        json_tcountpsec json = round (js_div (tcount rTrailer) 0)
        /\ (tcount rTrailer <> 0 ->
            json_hashrate json = round (js_div (2 ^ difficulty rTrailer) 0)))
    /\ (nonNeogenesis st = 0 ->
        json_blocktime_avg json = round (js_div (blockTimes st) 0)
        /\ json_tcount_avg json = round (js_div (transactions st) 0)
        /\ json_difficulty_avg json = round (js_div (difficulties st) 0)
        /\ json_pseudorate_avg json = round (js_div (pseudorate st) 0))
    /\ (blockTimes st = 0 ->
        json_tcountpsec_avg json = round (js_div (transactions st) 0))
    /\ (hashesTimes st = 0 ->
        json_hashrate_avg json = round (js_div (hashes st) 0))
    /\ (forall x,
          js_div x 0
          = (if x =? 0 then JNaN else if 0 <? x then JPosInf else JNegInf)
          /\ js_finite (js_div x 0) = false).
Proof.
  intros tfile st Hscan Hcs.
  exists (chain_metrics rTrailer st cs).
  split.
  { unfold tfile. rewrite (chain_calc_scanned _ _ _ Hscan). cbn zeta.
    fold tfile. fold st. rewrite Hcs. reflexivity. }
  unfold chain_metrics.
  cbn [json_blocktime json_tcountpsec json_hashrate json_blocktime_avg
       json_tcount_avg json_difficulty_avg json_pseudorate_avg
       json_tcountpsec_avg json_hashrate_avg].
  repeat apply conj.
  - intros Hb. apply EpochBoundary_true in Hb.
    rewrite nonNeogenesis_block_mod, Hb. reflexivity.
  - intros ->. split; [reflexivity | ].
    intros Hc. apply Z.eqb_neq in Hc. rewrite Hc. reflexivity.
  - intros ->. repeat split; reflexivity.
  - intros ->. reflexivity.
  - intros ->. reflexivity.
  - exact js_div_zero.
Qed.

(** ** The partial tfile parameters *)

(** C6, as the code computes it.  For a relative request ([blockNumber]
    negative) the count is [Math.abs(blockNumber) + 1], which is
    [|blockNumber| + 1] for every request above [- 2 ^ 53], and the start is
    [blockNumber] itself; a request without a block number is the relative
    request [-768], with count 769. *)
Theorem relative_request_parameters (blockNumber : Z) :
  (blockNumber < 0 ->
   tfile_count blockNumber = Number_add (Z.abs blockNumber) 1
   /\ tfile_start blockNumber = blockNumber)
  /\ (- 2 ^ 53 < blockNumber < 0 ->
      tfile_count blockNumber = Z.abs blockNumber + 1
      /\ tfile_start blockNumber = blockNumber)
  /\ requested None None = - 768
  /\ tfile_count (requested None None) = 769
  /\ tfile_start (requested None None) = - 768.
Proof.
  assert (Hneg : blockNumber < 0 ->
                 tfile_count blockNumber = Number_add (Z.abs blockNumber) 1
                 /\ tfile_start blockNumber = blockNumber).
  { intros Hneg. unfold tfile_start, tfile_count, target.
    replace (blockNumber <? 768) with true by (symmetry; apply Z.ltb_lt; lia).
    replace (-1 <? blockNumber) with false
      by (symmetry; apply Z.ltb_ge; lia).
    split; reflexivity. }
  split; [exact Hneg | ]. split; [ | repeat split; reflexivity].
  intros Hp. destruct Hneg as [Hc Hs]; [lia | ].
  rewrite Hc, Hs, Number_add_safe by (unfold safe_integer; lia).
  split; reflexivity.
Qed.


(** ** Further properties of the scan and of the answer *)

Lemma lookups_decide (l : list BlockTrailer) :
  (exists t, In t l /\ bnum t mod 256 = 0 /\ ledger_amount t <> None)
  \/ lookups_fail l.
Proof.
  induction l as [ | t l [(u & Hin & Hb & Hu) | Hall]].
  - right. intros t [].
  - left. exists u. repeat split; [right; exact Hin | exact Hb | exact Hu].
  - destruct (Z.eq_dec (bnum t mod 256) 0) as [Hb | Hb].
    + destruct (ledger_amount t) as [amount | ] eqn:Ht.
      * left. exists t. repeat split; [left; reflexivity | exact Hb | ].
        rewrite Ht. discriminate.
      * right. intros u [<- | Hin] Hu; [exact Ht | exact (Hall u Hin Hu)].
    + right. intros u [<- | Hin] Hu; [contradiction | exact (Hall u Hin Hu)].
Qed.

Lemma visit_chain_obj_stays (rTrailer t : BlockTrailer) (st : scan_state) :
  chain_obj st <> None -> chain_obj (visit rTrailer t st) <> None.
Proof.
  intros Hst. by_class t.
  - destruct (js_not (supply st)) eqn:Hs.
    + rewrite (visit_boundary_found rTrailer t st Hboundary Hs). cbn zeta.
      destruct (ledger_amount t); fields; [discriminate | exact Hst].
    + rewrite (visit_boundary_settled rTrailer t st Hboundary Hs). exact Hst.
  - rewrite (visit_pseudo rTrailer t st Hpseudo). exact Hst.
  - rewrite (visit_normal rTrailer t st Hnormal). exact Hst.
Qed.

Lemma scan_finds_iff (rTrailer : BlockTrailer) (l : list BlockTrailer) :
  chain_obj (scan rTrailer l) <> None
  <-> exists t, In t l /\ bnum t mod 256 = 0 /\ ledger_amount t <> None.
Proof.
  split.
  - intros Hfound.
    destruct (lookups_decide l) as [Hex | Hall]; [exact Hex | ].
    destruct (scan_lookups_fail rTrailer l Hall) as (_ & Ec & _).
    congruence.
  - induction l as [ | t l IH]; intros (u & Hin & Hb & Hu).
    + destruct Hin.
    + rewrite scan_cons.
      destruct (lookups_decide l) as [Hex | Hall].
      * apply visit_chain_obj_stays, IH, Hex.
      * destruct Hin as [<- | Hin].
        -- destruct (scan_lookups_fail rTrailer l Hall) as (Es & _ & _).
           apply EpochBoundary_true in Hb.
           rewrite visit_boundary_found by (try rewrite Es; auto).
           cbn zeta. destruct (ledger_amount t); fields;
             [discriminate | congruence].
        -- exfalso. apply Hu, (Hall u Hin Hb).
Qed.

Lemma scan_queries_prefix (rTrailer : BlockTrailer) (l : list BlockTrailer) :
  exists skipped,
    map lookup_key (filter EpochBoundary (rev l))
    = (queries (scan rTrailer l) ++ skipped)%list
    /\ (js_not (supply (scan rTrailer l)) = true -> skipped = []).
Proof.
  induction l as [ | t l (skipped & Hpre & Hnone)].
  - exists []. split; reflexivity.
  - rewrite scan_cons. cbn [rev]. rewrite filter_app, map_app, Hpre.
    cbn [filter]. by_class t; rewrite Hboundary; cbn [map].
    + destruct (js_not (supply (scan rTrailer l))) eqn:Hs.
      * rewrite (Hnone eq_refl), app_nil_r.
        rewrite (visit_boundary_found rTrailer t _ Hboundary Hs). cbn zeta.
        exists []. rewrite app_nil_r.
        destruct (ledger_amount t); fields; split; reflexivity.
      * rewrite (visit_boundary_settled rTrailer t _ Hboundary Hs).
        exists (skipped ++ [lookup_key t])%list.
        rewrite app_assoc. split; [reflexivity | ].
        intros H. rewrite H in Hs. discriminate Hs.
    + rewrite (visit_pseudo rTrailer t _ Hpseudo). fields.
      exists skipped. rewrite app_nil_r. split; [reflexivity | exact Hnone].
    + rewrite (visit_normal rTrailer t _ Hnormal). fields.
      exists skipped. rewrite app_nil_r. split; [reflexivity | exact Hnone].
Qed.

(** X1.  A request that passes the check of line 113 is answered with
    the chain data exactly when the lookup of some epoch-boundary record of
    the window finds a non-zero ledger amount, and with the 404 exactly
    when every lookup fails. *)
Theorem found_iff_some_lookup (blockNumber : Z) (older : list BlockTrailer)
    (rTrailer : BlockTrailer) :
  let tfile := (older ++ [rTrailer])%list in
  scanned blockNumber rTrailer ->
  ((exists json,
      fst (chain_calc blockNumber tfile) = Respond 200 (ChainData json))
   <-> exists t, In t tfile /\ bnum t mod 256 = 0 /\ ledger_amount t <> None)
  /\ (fst (chain_calc blockNumber tfile) = unavailable
      <-> lookups_fail tfile).
Proof.
  intros tfile Hscan. unfold tfile.
  rewrite (chain_calc_scanned _ _ _ Hscan). cbn zeta. fold tfile.
  pose proof (scan_finds_iff rTrailer tfile) as Hiff.
  destruct (chain_obj (scan rTrailer tfile)) as [cs | ] eqn:Hcs; cbn [fst].
  - split.
    + split.
      * intros _. apply Hiff. discriminate.
      * intros _. eexists. reflexivity.
    + split.
      * intros H. discriminate H.
      * intros Hfail.
        destruct (scan_lookups_fail rTrailer tfile Hfail) as (_ & Ec & _).
        congruence.
  - split.
    + split.
      * intros [json H]. discriminate H.
      * intros H. apply Hiff in H. congruence.
    + split.
      * intros _. destruct (lookups_decide tfile) as [Hex | Hall];
          [ | exact Hall].
        apply Hiff in Hex. congruence.
      * reflexivity.
Qed.

(** X2.  Whatever the lookups return, the queries sent are the keys of
    the epoch-boundary records of the window, newest first, up to some
    record: no other key is asked, none twice, and no record is asked once
    an older one has been. *)
Theorem queries_newest_first (blockNumber : Z) (older : list BlockTrailer)
    (rTrailer : BlockTrailer) :
  let tfile := (older ++ [rTrailer])%list in
  exists skipped,
    map lookup_key (filter EpochBoundary (rev tfile))
    = (snd (chain_calc blockNumber tfile) ++ skipped)%list
    /\ Z.of_nat (List.length (snd (chain_calc blockNumber tfile)))
       <= count_of EpochBoundary tfile.
Proof.
  intros tfile.
  assert (Hlen : forall asked skipped,
    map lookup_key (filter EpochBoundary (rev tfile))
    = (asked ++ skipped)%list ->
    Z.of_nat (List.length asked) <= count_of EpochBoundary tfile).
  { intros asked skipped H. rewrite <- count_of_rev. unfold count_of.
    rewrite <- (length_map lookup_key), H, length_app. lia. }
  destruct (chain_calc_cases blockNumber older rTrailer)
    as [Hc | Hc]; fold tfile in Hc; rewrite Hc.
  - destruct (scan_queries_prefix rTrailer tfile) as (skipped & Hpre & _).
    cbn zeta. exists skipped.
    destruct (chain_obj (scan rTrailer tfile)); cbn [snd];
      (split; [exact Hpre | exact (Hlen _ _ Hpre)]).
  - exists (map lookup_key (filter EpochBoundary (rev tfile))). cbn [snd].
    split; [reflexivity | ]. apply (Hlen [] _ eq_refl).
Qed.

(** X3.  When the newest record is an epoch boundary, the chain data
    report the block time, the fees, the reward and the mining reward as 0;
    if its own lookup finds the non-zero ledger amount [amount], the supply
    is that amount and this lookup is the only query. *)
Theorem boundary_target (blockNumber : Z) (older : list BlockTrailer)
    (rTrailer : BlockTrailer) (json : chain_json) :
  let tfile := (older ++ [rTrailer])%list in
  bnum rTrailer mod 256 = 0 ->
  fst (chain_calc blockNumber tfile) = Respond 200 (ChainData json) ->
  json_blocktime json = 0
  /\ json_txfees json = 0
  /\ json_reward json = 0
  /\ json_mreward json = 0
  /\ (forall amount,
        findOne (lookup_key rTrailer) = DbDoc (Some amount) ->
        amount <> 0 ->
        json_supply json = amount
        /\ snd (chain_calc blockNumber tfile) = [lookup_key rTrailer]).
Proof.
  intros tfile Hb Hjson.
  destruct (chain_calc_cases blockNumber older rTrailer)
    as [Hc | Hc]; fold tfile in Hc;
    [ | rewrite Hc in Hjson; discriminate Hjson].
  apply chain_calc_200 in Hjson as (cs & Hcs & ->). fold tfile in Hcs.
  apply EpochBoundary_true in Hb.
  unfold chain_metrics.
  cbn [json_blocktime json_txfees json_reward json_mreward json_supply].
  rewrite nonNeogenesis_block_mod, Hb. cbn [negb].
  repeat apply conj; try reflexivity.
  intros amount Hdoc Hamount.
  assert (Hledger : ledger_amount rTrailer = Some amount).
  { unfold ledger_amount. rewrite Hdoc.
    apply Z.eqb_neq in Hamount. rewrite Hamount. reflexivity. }
  assert (Hfirst : scan rTrailer [rTrailer]
                   = mkScan (Some amount) 0 0 0 0 0 0 0 0
                       (Some (mkChainSupply
                                (projectedSupply None
                                 - (projectedSupply (Some (bnum rTrailer))
                                    - amount))
                                amount))
                       [lookup_key rTrailer]).
  { unfold scan. cbn [fold_right].
    rewrite visit_boundary_found by auto.
    rewrite Hledger. cbn. rewrite Z.add_0_r. reflexivity. }
  destruct (scan_settled rTrailer older (scan rTrailer [rTrailer]))
    as (_ & Fc & Fq).
  { rewrite Hfirst. cbn. apply Z.eqb_neq. exact Hamount. }
  rewrite <- scan_app in Fc, Fq. fold tfile in Fc, Fq.
  rewrite Hc. cbn zeta. rewrite Hcs. cbn [snd].
  rewrite Fq, Hfirst. fields. split; [ | reflexivity].
  rewrite Hcs, Hfirst in Fc. fields. injection Fc as ->. reflexivity.
Qed.

(** The chain data describe the newest record of the window: its
    hashes, nonce, number, fee, times, transaction count and difficulty are
    copied, the haiku is left out exactly for the nonce of 64 zeros, the
    mining reward is the sum of the fees and the reward, and a block
    without transactions has the hash rate 0.  For a newest record that is
    not an epoch boundary the block time is its solve time, the fees are
    [tcount * mfee] and the reward is [blockReward bnum]. *)
Lemma answer_describes_newest (blockNumber : Z) (older : list BlockTrailer)
    (rTrailer : BlockTrailer) (json : chain_json) :
  fst (chain_calc blockNumber (older ++ [rTrailer]))
    = Respond 200 (ChainData json) ->
  (json_bhash json = bhash rTrailer /\ json_phash json = phash rTrailer
   /\ json_mroot json = mroot rTrailer /\ json_nonce json = nonce rTrailer
   /\ json_bnum json = bnum rTrailer /\ json_mfee json = mfee rTrailer
   /\ json_time0 json = time0 rTrailer /\ json_stime json = stime rTrailer
   /\ json_tcount json = tcount rTrailer
   /\ json_difficulty json = difficulty rTrailer)
  /\ (json_haiku json = None <-> nonce rTrailer = zero_nonce)
  /\ json_mreward json = json_txfees json + json_reward json
  /\ (tcount rTrailer = 0 -> json_hashrate json = JFin 0)
  /\ (bnum rTrailer mod 256 <> 0 ->
      json_blocktime json = stime rTrailer - time0 rTrailer
      /\ json_txfees json = tcount rTrailer * mfee rTrailer
      /\ json_reward json = blockReward (bnum rTrailer)).
Proof.
  intros Hjson. apply chain_calc_200 in Hjson as (cs & _ & ->).
  unfold chain_metrics.
  cbn [json_bhash json_phash json_mroot json_nonce json_bnum json_mfee
       json_time0 json_stime json_tcount json_difficulty json_haiku
       json_mreward json_txfees json_reward json_hashrate json_blocktime].
  split; [repeat split | ]. split; [ | split; [ | split]].
  - destruct (String.eqb_spec (nonce rTrailer) zero_nonce) as [E | E].
    + split; [intros _; exact E | reflexivity].
    + split; [discriminate | contradiction].
  - destruct (negb (nonNeogenesis_block rTrailer)); reflexivity.
  - intros ->. reflexivity.
  - intros Hnb. apply EpochBoundary_false in Hnb.
    rewrite nonNeogenesis_block_mod, Hnb. cbn [negb]. repeat split.
Qed.

(** X4.  For an absolute request up to [2 ^ 53] the parameters describe
    a window of at least 1 and at most 768 trailers that starts at or after
    the first block and ends at the requested block. *)
Theorem absolute_window (blockNumber : Z) :
  0 <= blockNumber <= 2 ^ 53 ->
  1 <= tfile_count blockNumber <= target
  /\ 0 <= tfile_start blockNumber
  /\ tfile_start blockNumber + tfile_count blockNumber - 1 = blockNumber.
Proof.
  intros Hpos. unfold tfile_start, tfile_count, target.
  replace (-1 <? blockNumber) with true by (symmetry; apply Z.ltb_lt; lia).
  destruct (Z.ltb_spec blockNumber 768).
  - rewrite (Number_add_safe (Z.abs blockNumber) 1)
      by (unfold safe_integer; lia).
    rewrite (Number_sub_safe (Z.abs blockNumber + 1) 1)
      by (unfold safe_integer; lia).
    rewrite Number_sub_safe by (unfold safe_integer; lia). lia.
  - change (Number_sub 768 1) with 767.
    rewrite Number_sub_safe by (unfold safe_integer; lia). lia.
Qed.

End Chain.

(** ** The statements on the sample data *)

Local Abbreviation sample_calc :=
  (chain_calc sample_reward sample_projected sample_round sample_findOne
     sample_expand).

Local Abbreviation sample_visit :=
  (visit sample_reward sample_projected sample_findOne).

Local Abbreviation sample_scan :=
  (scan sample_reward sample_projected sample_findOne).

Lemma sample_newer_lookups_fail :
  lookups_fail sample_findOne [trailer_257; trailer_258].
Proof.
  intros t [<- | [<- | []]] H; vm_compute in H; discriminate H.
Defined.

Lemma supply_first_success_witness :
  exists json,
    fst (sample_calc 258 sample_window) = Respond 200 (ChainData json)
    /\ json_supply json = 1020.
Proof.
  destruct (supply_first_success sample_reward sample_projected sample_round
              sample_findOne sample_expand 258
              [trailer_255] [trailer_257; trailer_258] trailer_256 1000
              eq_refl eq_refl ltac:(discriminate) sample_newer_lookups_fail)
    as [_ H].
  apply H.
  - right. reflexivity.
  - vm_compute. discriminate.
Defined.

(** On the sample window the answer carries [maxsupply = 3440], where the
    formula [projectedSupply(rTrailer.bnum) - (projectedSupply() - supply)]
    gives [2580 - (5000 - 1020) = -1400]. *)
Lemma maxsupply_not_as_claimed :
  exists json,
    fst (sample_calc 258 sample_window) = Respond 200 (ChainData json)
    /\ json_maxsupply json
       <> sample_projected (Some (bnum trailer_258))
          - (sample_projected None - json_supply json).
Proof.
  eexists. split.
  - vm_compute. reflexivity.
  - vm_compute. discriminate.
Qed.

Lemma maxsupply_formula_witness :
  exists json,
    fst (sample_calc 258 sample_window) = Respond 200 (ChainData json)
    /\ json_maxsupply json
       = sample_projected None
         - (sample_projected (Some (bnum trailer_258)) - json_supply json).
Proof.
  eexists. split.
  - vm_compute. reflexivity.
  - apply (maxsupply_formula sample_reward sample_projected sample_round
             sample_findOne sample_expand 258
             [trailer_255; trailer_256; trailer_257] trailer_258).
    vm_compute. reflexivity.
Defined.

Lemma all_lookups_fail_witness :
  let answer :=
    chain_calc sample_reward sample_projected sample_round empty_ledger
      sample_expand 258 sample_window in
  fst answer = unavailable
  /\ snd answer = [lookup_key trailer_256]
  /\ Z.of_nat (List.length (snd answer))
     <= Z.of_nat (List.length sample_window) / 256 + 1.
Proof.
  destruct (all_lookups_fail sample_reward sample_projected sample_round
              empty_ledger sample_expand 258
              [trailer_255; trailer_256; trailer_257] trailer_258)
    as (H1 & H2 & H3 & _).
  - intros t _ _. reflexivity.
  - repeat apply conj.
    + exact H1.
    + apply H2. right. reflexivity.
    + apply (H3 255). cbn. repeat split; reflexivity.
Defined.


(** The last line: one hash and [2 ^ 53] hashes are [2 ^ 53] hashes. *)
Lemma visit_accumulates_witness :
  rewards (sample_visit trailer_258 trailer_257 scan_init) = 20
  /\ hashes (sample_visit trailer_258 trailer_257 scan_init) = 4
  /\ pseudorate (sample_visit trailer_258 trailer_258 scan_init) = 1
  /\ nonNeogenesis (sample_visit trailer_258 trailer_256 scan_init) = 0
  /\ hashes (sample_visit trailer_258 trailer_259 one_hash) = 2 ^ 53.
Proof.
  destruct (visit_accumulates sample_reward sample_projected sample_findOne
              trailer_258 trailer_257 scan_init) as (Hn & _ & Hexact).
  destruct Hn as (_ & _ & _ & _ & Hn); [vm_compute; discriminate | ].
  destruct Hn as (_ & _ & _ & Hh & Hr); [vm_compute; discriminate | ].
  rewrite Hexact in Hh by (vm_compute; discriminate).
  destruct (visit_accumulates sample_reward sample_projected sample_findOne
              trailer_258 trailer_258 scan_init) as (Hp & _ & _).
  destruct Hp as (_ & _ & _ & Hp & _); [vm_compute; discriminate | ].
  destruct Hp as (Hp & _); [reflexivity | ].
  destruct (visit_accumulates sample_reward sample_projected sample_findOne
              trailer_258 trailer_256 scan_init) as (_ & Hb & _).
  destruct Hb as (_ & _ & Hb & _); [reflexivity | ].
  destruct (visit_accumulates sample_reward sample_projected sample_findOne
              trailer_258 trailer_259 one_hash) as (Hr53 & _ & _).
  destruct Hr53 as (_ & _ & _ & _ & Hr53); [vm_compute; discriminate | ].
  destruct Hr53 as (_ & _ & _ & Hr53 & _); [vm_compute; discriminate | ].
  repeat apply conj.
  - exact Hr.
  - exact Hh.
  - exact Hp.
  - exact Hb.
  - exact Hr53.
Defined.

Lemma sample_window_uint32 :
  forall t, In t sample_window -> uint32_fields t.
Proof.
  intros t [<- | [<- | [<- | [<- | []]]]]; unfold uint32_fields; cbn; lia.
Defined.

Lemma scan_visits_every_record_witness :
  let st := sample_scan trailer_258 sample_window in
  supply st = Some 1020
  /\ queries st = [lookup_key trailer_256]
  /\ nonNeogenesis st = count_of nonBoundary sample_window
  /\ blockTimes st = sum_over nonBoundary solve_time sample_window
  /\ hashes st = sum_over Normal (fun t => 2 ^ difficulty t) sample_window
  /\ exists json,
       fst (sample_calc 258 sample_window) = Respond 200 (ChainData json)
       /\ json_blocktime_avg json = sample_round (js_div 25 3).
Proof.
  destruct (scan_visits_every_record sample_reward sample_projected
              sample_round sample_findOne sample_expand 258
              [trailer_255] [trailer_256; trailer_257] trailer_258)
    as (H1 & H2 & H3 & H4).
  destruct (H1 1020 eq_refl ltac:(discriminate)) as (Hs & _ & Hq).
  destruct H2 as (_ & _ & Hn & _ & Hb & _ & Hh & _).
  destruct H4 as (_ & En & _ & Eb & _ & Eh & _).
  { exact sample_window_uint32. }
  { vm_compute. discriminate. }
  { vm_compute. discriminate. }
  repeat apply conj.
  - exact Hs.
  - exact Hq.
  - exact (eq_trans Hn En).
  - exact (eq_trans Hb Eb).
  - exact (eq_trans Hh Eh).
  - eexists. split.
    + vm_compute. reflexivity.
    + apply H3. vm_compute. reflexivity.
Defined.

Lemma failed_lookup_keeps_searching_witness :
  supply (sample_visit trailer_512 trailer_512 scan_init) = None
  /\ queries (sample_visit trailer_512 trailer_512 scan_init)
     = [lookup_key trailer_512]
  /\ fst (sample_calc 512 [trailer_512]) = unavailable.
Proof.
  destruct (failed_lookup_keeps_searching sample_reward sample_projected
              sample_round sample_findOne sample_expand 512 []
              trailer_512 trailer_512 scan_init) as [H1 H2].
  destruct H1 as (Hs & _ & Hq & _).
  - reflexivity.
  - reflexivity.
  - right. right. reflexivity.
  - repeat apply conj.
    + exact Hs.
    + exact Hq.
    + apply H2. intros u [<- | []] _. right. right. reflexivity.
Defined.

Lemma zero_divisors_pass_through_witness :
  exists json,
    fst (sample_calc 256 [trailer_256]) = Respond 200 (ChainData json)
    /\ json_blocktime json = 0
    /\ json_tcountpsec json = JNaN
    /\ json_blocktime_avg json = JNaN.
Proof.
  destruct (zero_divisors_pass_through sample_reward sample_projected
              sample_round sample_findOne sample_expand 256 []
              trailer_256 (mkChainSupply 3440 1000))
    as (json & E & Hb & Ht & Hn & _).
  - right. reflexivity.
  - reflexivity.
  - exists json. repeat apply conj.
    + exact E.
    + apply Hb. reflexivity.
    + apply Ht, Hb. reflexivity.
    + apply Hn. reflexivity.
Defined.

(** Without a block number the count is 769, not [|-768| = 768]. *)
Lemma relative_count_not_abs :
  tfile_count (requested None None) <> Z.abs (requested None None).
Proof. vm_compute. discriminate. Qed.

Lemma relative_request_parameters_witness :
  tfile_count (-5) = 6 /\ tfile_start (-5) = -5.
Proof.
  apply (proj1 (proj2 (relative_request_parameters (-5)))). lia.
Defined.


Lemma found_iff_some_lookup_witness :
  exists json,
    fst (sample_calc 258 sample_window) = Respond 200 (ChainData json).
Proof.
  apply (proj1 (found_iff_some_lookup sample_reward sample_projected
                  sample_round sample_findOne sample_expand 258
                  [trailer_255; trailer_256; trailer_257] trailer_258
                  (or_intror eq_refl))).
  exists trailer_256. repeat split.
  - right. left. reflexivity.
  - vm_compute. discriminate.
Defined.

Lemma boundary_target_witness :
  exists json,
    fst (sample_calc 256 [trailer_255; trailer_256])
      = Respond 200 (ChainData json)
    /\ json_blocktime json = 0
    /\ json_reward json = 0
    /\ json_supply json = 1000
    /\ snd (sample_calc 256 [trailer_255; trailer_256])
       = [lookup_key trailer_256].
Proof.
  eexists. split; [vm_compute; reflexivity | ].
  match goal with
  | |- json_blocktime ?j = _ /\ _ =>
      destruct (boundary_target sample_reward sample_projected sample_round
                  sample_findOne sample_expand 256 [trailer_255] trailer_256
                  j eq_refl)
        as (Hb & _ & Hr & _ & Hs)
  end.
  - vm_compute. reflexivity.
  - destruct (Hs 1000 eq_refl ltac:(discriminate)) as [Hsupply Hq].
    repeat split; assumption.
Defined.

Lemma absolute_window_witness :
  1 <= tfile_count 1000 <= target
  /\ 0 <= tfile_start 1000
  /\ tfile_start 1000 + tfile_count 1000 - 1 = 1000.
Proof.
  apply (absolute_window 1000). lia.
Defined.

End Responder.

(** * Facts about the built-ins *)

Module JsFacts.

Lemma length_append (s1 s2 : string) :
  String.length (s1 ++ s2) = (String.length s1 + String.length s2)%nat.
Proof.
  induction s1 as [ | c s1 IH]; cbn; [reflexivity | rewrite IH; reflexivity].
Qed.

Lemma append_assoc (s1 s2 s3 : string) :
  ((s1 ++ s2) ++ s3 = s1 ++ (s2 ++ s3))%string.
Proof.
  induction s1 as [ | c s1 IH]; cbn; [reflexivity | rewrite IH; reflexivity].
Qed.

Lemma append_empty_r (s : string) : (s ++ "")%string = s.
Proof.
  induction s as [ | c s IH]; cbn; [reflexivity | rewrite IH; reflexivity].
Qed.

Lemma length_substring_prefix (m : nat) (s : string) :
  (m <= String.length s)%nat ->
  String.length (String.substring 0 m s) = m.
Proof.
  revert s. induction m as [ | m IH]; intros [ | c s] H; cbn in *;
    try reflexivity; try lia.
  rewrite IH by lia. reflexivity.
Qed.

Lemma fill_one (k : nat) (c : ascii) (cur : string) :
  cur = EmptyString \/ cur = String c EmptyString ->
  Js.fill k cur (String c EmptyString) = Util.chars k c.
Proof.
  revert cur. induction k as [ | k IH]; intros cur Hcur; [reflexivity | ].
  destruct Hcur as [-> | ->]; cbn; rewrite IH; auto.
Qed.

Lemma length_chars (k : nat) (c : ascii) :
  String.length (Util.chars k c) = k.
Proof. induction k as [ | k IH]; cbn; [reflexivity | rewrite IH; reflexivity]. Qed.

(** Padding with one character. *)
Lemma padStart_one (s : string) (n : nat) (c : ascii) :
  Js.padStart s n (String c EmptyString)
  = (Util.chars (n - String.length s) c ++ s)%string.
Proof.
  unfold Js.padStart. destruct (Nat.leb_spec n (String.length s)) as [H | H].
  - replace (n - String.length s)%nat with 0%nat by lia. reflexivity.
  - rewrite fill_one by (right; reflexivity). reflexivity.
Qed.

Lemma length_padStart_one (s : string) (n : nat) (c : ascii) :
  String.length (Js.padStart s n (String c EmptyString))
  = Nat.max n (String.length s).
Proof.
  rewrite padStart_one, length_append, length_chars. lia.
Qed.

Lemma all_chars_append (class : ascii -> bool) (s1 s2 : string) :
  Util.all_chars class (s1 ++ s2)
  = Util.all_chars class s1 && Util.all_chars class s2.
Proof.
  induction s1 as [ | c s1 IH]; cbn; [reflexivity | ].
  rewrite IH, andb_assoc. reflexivity.
Qed.

Lemma all_chars_chars (class : ascii -> bool) (k : nat) (c : ascii) :
  class c = true -> Util.all_chars class (Util.chars k c) = true.
Proof.
  intros Hc. induction k as [ | k IH]; cbn; [reflexivity | ].
  rewrite Hc, IH. reflexivity.
Qed.

Lemma hex_value_append (s1 s2 : string) :
  Util.hex_value (s1 ++ s2)
  = Util.hex_value s1 * 16 ^ Z.of_nat (String.length s2) + Util.hex_value s2.
Proof.
  induction s1 as [ | c s1 IH]; cbn [append Util.hex_value String.length].
  - lia.
  - rewrite IH, length_append, Nat2Z.inj_add, Z.pow_add_r by lia. ring.
Qed.

Lemma hex_value_zeros (k : nat) :
  Util.hex_value (Util.chars k "0") = 0.
Proof.
  induction k as [ | k IH]; cbn [Util.chars Util.hex_value]; [reflexivity | ].
  rewrite IH. reflexivity.
Qed.

Lemma hex_value_padStart (s : string) (n : nat) :
  Util.hex_value (Js.padStart s n "0") = Util.hex_value s.
Proof.
  rewrite padStart_one, hex_value_append, hex_value_zeros. lia.
Qed.

Lemma lower_hex_digit (d : Z) :
  0 <= d < 16 ->
  Util.lower_hex_char (Js.hex_digit d) = true
  /\ Util.digit_value (Js.hex_digit d) = d.
Proof.
  intros Hd.
  assert (H : d = 0 \/ d = 1 \/ d = 2 \/ d = 3 \/ d = 4 \/ d = 5 \/ d = 6
              \/ d = 7 \/ d = 8 \/ d = 9 \/ d = 10 \/ d = 11 \/ d = 12
              \/ d = 13 \/ d = 14 \/ d = 15) by lia.
  repeat (destruct H as [-> | H]; [split; reflexivity | ]).
  subst d. split; reflexivity.
Qed.

(** With enough fuel [hex_digits] writes [n] in lowercase digits, as
    shortly as [n] allows. *)
Lemma hex_digits_spec (fuel : nat) (n : Z) :
  0 <= n < 2 ^ Z.of_nat fuel ->
  Util.hex_value (Js.hex_digits fuel n) = n
  /\ Util.all_chars Util.lower_hex_char (Js.hex_digits fuel n) = true
  /\ forall k : nat, (1 <= k)%nat -> n < 16 ^ Z.of_nat k ->
       (String.length (Js.hex_digits fuel n) <= k)%nat.
Proof.
  revert n. induction fuel as [ | fuel IH]; intros n Hn.
  - cbn in Hn. cbn. repeat split; try lia.
  - cbn [Js.hex_digits]. destruct (Z.ltb_spec n 16) as [Hlt | Hge].
    + destruct (lower_hex_digit n) as [Hl Hv]; [lia | ].
      cbn [Util.hex_value Util.all_chars String.length].
      rewrite Hl, Hv. repeat split; cbn; try lia.
    + assert (Hq : 0 <= n / 16 < 2 ^ Z.of_nat fuel).
      { rewrite Nat2Z.inj_succ, Z.pow_succ_r in Hn by lia.
        split; [apply Z.div_pos; lia | ].
        apply Z.div_lt_upper_bound; lia. }
      destruct (IH _ Hq) as (Hv & Hl & Hlen).
      destruct (lower_hex_digit (n mod 16)) as [Hl' Hv'].
      { apply Z.mod_pos_bound. lia. }
      rewrite hex_value_append, all_chars_append, length_append.
      cbn [Util.hex_value Util.all_chars String.length].
      rewrite Hv, Hl, Hl', Hv'. cbn [Z.of_nat Z.pow andb].
      repeat split.
      * pose proof (Z.div_mod n 16). lia.
      * intros k Hk Hnk. destruct k as [ | k]; [lia | ].
        destruct k as [ | k]; [cbn in Hnk; lia | ].
        assert (Hk' : (String.length (Js.hex_digits fuel (n / 16)) <= S k)%nat).
        { apply Hlen; [lia | ].
          rewrite Nat2Z.inj_succ, Z.pow_succ_r in Hnk by lia.
          apply Z.div_lt_upper_bound; lia. }
        lia.
Qed.

Lemma toString16_spec (n : Z) :
  0 <= n ->
  Util.hex_value (Js.toString16 n) = n
  /\ Util.all_chars Util.lower_hex_char (Js.toString16 n) = true
  /\ forall k : nat, (1 <= k)%nat -> n < 16 ^ Z.of_nat k ->
       (String.length (Js.toString16 n) <= k)%nat.
Proof.
  intros Hn. unfold Js.toString16.
  replace (n <? 0) with false by (symmetry; apply Z.ltb_ge; exact Hn).
  apply hex_digits_spec. split; [exact Hn | ].
  rewrite Nat2Z.inj_succ, Z2Nat.id by apply Z.log2_nonneg.
  destruct (Z.eq_dec n 0) as [-> | Hnz]; [cbn; lia | ].
  apply Z.log2_spec. lia.
Qed.

(** Own properties. *)

Lemma get_set_same (o : list (string * Js.value)) (k : string)
    (v : Js.value) :
  Js.get (Js.set o k v) k = v.
Proof.
  induction o as [ | [k' v'] o IH]; cbn [Js.set Js.get].
  - rewrite String.eqb_refl. reflexivity.
  - destruct (String.eqb k' k) eqn:E; cbn [Js.get]; rewrite E;
      [reflexivity | exact IH].
Qed.

Lemma get_set_other (o : list (string * Js.value)) (k k' : string)
    (v : Js.value) :
  k' <> k -> Js.get (Js.set o k v) k' = Js.get o k'.
Proof.
  intros Hne. induction o as [ | [k0 v0] o IH]; cbn [Js.set Js.get].
  - replace (String.eqb k k') with false; [reflexivity | ].
    symmetry. apply String.eqb_neq. congruence.
  - destruct (String.eqb_spec k0 k) as [-> | Hk]; cbn [Js.get].
    + replace (String.eqb k k') with false; [reflexivity | ].
      symmetry. apply String.eqb_neq. congruence.
    + destruct (String.eqb k0 k'); [reflexivity | exact IH].
Qed.

Lemma has_set (o : list (string * Js.value)) (k k' : string)
    (v : Js.value) :
  Js.has (Js.set o k v) k' = String.eqb k k' || Js.has o k'.
Proof.
  unfold Js.has. induction o as [ | [k0 v0] o IH]; cbn [Js.set existsb fst].
  - rewrite orb_false_r. reflexivity.
  - destruct (String.eqb_spec k0 k) as [-> | Hk]; cbn [existsb fst].
    + destruct (String.eqb k k'); reflexivity.
    + rewrite IH. destruct (String.eqb k0 k'), (String.eqb k k'); reflexivity.
Qed.

Lemma has_in (o : list (string * Js.value)) (k : string) :
  Js.has o k = true <-> In k (map fst o).
Proof.
  unfold Js.has. rewrite existsb_exists, in_map_iff. split.
  - intros (kv & Hin & Heq). apply String.eqb_eq in Heq. exists kv. auto.
  - intros (kv & Heq & Hin). exists kv. split; [exact Hin | ].
    apply String.eqb_eq. exact Heq.
Qed.

(** [Object.assign] lets the source decide its own keys and keeps the
    others of the target. *)
Lemma get_assign (target source : list (string * Js.value)) (k : string) :
  NoDup (map fst source) ->
  Js.get (Js.assign target source) k
  = if Js.has source k then Js.get source k else Js.get target k.
Proof.
  unfold Js.assign. revert target.
  induction source as [ | [k1 v1] source IH]; intros target Hnd.
  - reflexivity.
  - cbn [map fst] in Hnd. apply NoDup_cons_iff in Hnd as [Hnot Hnd].
    cbn [fold_left fst snd]. rewrite (IH _ Hnd).
    unfold Js.has at 2. cbn [existsb fst Js.get].
    fold (Js.has source k).
    destruct (String.eqb_spec k1 k) as [-> | Hk]; cbn [orb].
    + replace (Js.has source k) with false.
      * apply get_set_same.
      * symmetry. destruct (Js.has source k) eqn:E; [ | reflexivity].
        apply has_in in E. contradiction.
    + destruct (Js.has source k); [reflexivity | ].
      apply get_set_other. congruence.
Qed.

Lemma has_false_get (o : list (string * Js.value)) (k : string) :
  Js.has o k = false -> Js.get o k = Js.Undefined.
Proof.
  unfold Js.has. induction o as [ | [k' v'] o IH]; cbn [existsb fst Js.get].
  - reflexivity.
  - destruct (String.eqb k' k); cbn [orb]; [discriminate | exact IH].
Qed.

End JsFacts.

(** * Facts about src/util.js *)

Module UtilFacts.

Import JsFacts.

(** ** [invalidHexString] *)

Lemma remove_all_empty (class : ascii -> bool) (s : string) :
  Util.remove_all class s = EmptyString <-> Util.all_chars class s = true.
Proof.
  induction s as [ | c s IH]; cbn.
  - split; reflexivity.
  - destruct (class c); cbn.
    + exact IH.
    + split; discriminate.
Qed.

Lemma lower_hex_is_hex (c : ascii) :
  Util.lower_hex_char c = true -> Util.hex_char c = true.
Proof.
  unfold Util.lower_hex_char, Util.hex_char.
  destruct (48 <=? N_of_ascii c)%N, (N_of_ascii c <=? 57)%N,
    (65 <=? N_of_ascii c)%N, (N_of_ascii c <=? 70)%N,
    (97 <=? N_of_ascii c)%N, (N_of_ascii c <=? 102)%N; cbn; intros H;
    first [reflexivity | discriminate H].
Qed.

Lemma all_chars_weaken (p q : ascii -> bool) (s : string) :
  (forall c, p c = true -> q c = true) ->
  Util.all_chars p s = true -> Util.all_chars q s = true.
Proof.
  intros Hpq. induction s as [ | c s IH]; cbn; [reflexivity | ].
  intros H. apply andb_true_iff in H as [Hc Hs].
  rewrite (Hpq c Hc), (IH Hs). reflexivity.
Qed.

Lemma truthy_Str (s : string) :
  Js.truthy (Js.Str s) = false <-> s = EmptyString.
Proof.
  unfold Js.truthy.
  destruct (String.eqb_spec s EmptyString) as [E | E]; cbn [negb];
    split; intros H; congruence.
Qed.

(** X12.  [invalidHexString] answers [false] exactly for the strings made
    of the characters [0-9A-Fa-f], the empty string among them; another
    string gets "invalid data, " and the name, a value that is not a string
    "invalid type, " and the name. *)
Theorem invalidHexString_spec (hexStr : Js.value) (name : string) :
  (Util.invalidHexString hexStr name = None
   <-> exists s, hexStr = Js.Str s
                 /\ Util.all_chars Util.hex_char s = true)
  /\ (forall s, hexStr = Js.Str s ->
        Util.all_chars Util.hex_char s = false ->
        Util.invalidHexString hexStr name
        = Some ("invalid data, " ++ name)%string)
  /\ (Js.typeof hexStr <> "string"%string ->
      Util.invalidHexString hexStr name
      = Some ("invalid type, " ++ name)%string).
Proof.
  assert (Hstr : forall s,
    Util.invalidHexString (Js.Str s) name
    = if Util.all_chars Util.hex_char s then None
      else Some ("invalid data, " ++ name)%string).
  { intros s. unfold Util.invalidHexString.
    destruct (Util.all_chars Util.hex_char s) eqn:Hall.
    - apply remove_all_empty in Hall. rewrite Hall. reflexivity.
    - destruct (Js.truthy (Js.Str (Util.remove_all Util.hex_char s))) eqn:Ht;
        [reflexivity | ].
      apply truthy_Str, remove_all_empty in Ht. congruence. }
  split; [ | split].
  - split.
    + destruct hexStr; try discriminate. rewrite Hstr.
      destruct (Util.all_chars Util.hex_char s) eqn:Hall; [ | discriminate].
      intros _. exists s. auto.
    + intros (s & -> & Hall). rewrite Hstr, Hall. reflexivity.
  - intros s -> Hall. rewrite Hstr, Hall. reflexivity.
  - destruct hexStr; cbn; try reflexivity. congruence.
Qed.

(** ** [asUint64String] *)

Lemma asUint64String_digits (bigint : Z) :
  Util.hex_value (Js.toString16 (bigint mod 2 ^ 64)) = bigint mod 2 ^ 64
  /\ Util.all_chars Util.lower_hex_char (Js.toString16 (bigint mod 2 ^ 64))
     = true
  /\ (String.length (Js.toString16 (bigint mod 2 ^ 64)) <= 16)%nat.
Proof.
  pose proof (Z.mod_pos_bound bigint (2 ^ 64) ltac:(lia)) as Hm.
  destruct (toString16_spec (bigint mod 2 ^ 64)) as (Hv & Hl & Hlen);
    [lia | ].
  repeat split; try assumption.
  apply Hlen; [lia | ]. change (16 ^ Z.of_nat 16) with (2 ^ 64). lia.
Qed.

Lemma asUint64String_lower (bigint : Z) :
  Util.all_chars Util.lower_hex_char (Util.asUint64String bigint) = true.
Proof.
  destruct (asUint64String_digits bigint) as (_ & Hl & _).
  unfold Util.asUint64String.
  rewrite padStart_one, all_chars_append, Hl, all_chars_chars; reflexivity.
Qed.

Lemma asUint64String_length (bigint : Z) :
  String.length (Util.asUint64String bigint) = 16%nat.
Proof.
  destruct (asUint64String_digits bigint) as (_ & _ & Hlen).
  unfold Util.asUint64String. rewrite length_padStart_one. lia.
Qed.

Lemma asUint64String_hex_value (bigint : Z) :
  Util.hex_value (Util.asUint64String bigint) = bigint mod 2 ^ 64.
Proof.
  destruct (asUint64String_digits bigint) as (Hv & _ & _).
  unfold Util.asUint64String. rewrite hex_value_padStart. exact Hv.
Qed.

(** X10.  [asUint64String] always gives 16 characters, all of them digits
    [0-9a-f], so [invalidHexString] accepts its result. *)
Theorem asUint64String_shape (bigint : Z) (name : string) :
  String.length (Util.asUint64String bigint) = 16%nat
  /\ Util.all_chars Util.lower_hex_char (Util.asUint64String bigint) = true
  /\ Util.invalidHexString (Js.Str (Util.asUint64String bigint)) name = None.
Proof.
  repeat apply conj.
  - apply asUint64String_length.
  - apply asUint64String_lower.
  - unfold Util.invalidHexString.
    replace (Util.remove_all Util.hex_char (Util.asUint64String bigint))
      with EmptyString; [reflexivity | ].
    symmetry. apply remove_all_empty.
    apply (all_chars_weaken Util.lower_hex_char); [apply lower_hex_is_hex | ].
    apply asUint64String_lower.
Qed.

(** X11.  The 16 digits denote the argument modulo [2 ^ 64]: two arguments
    get the same string exactly when they are congruent modulo
    [2 ^ 64]. *)
Theorem asUint64String_value (x y : Z) :
  Util.hex_value (Util.asUint64String x) = x mod 2 ^ 64
  /\ (Util.asUint64String x = Util.asUint64String y
      <-> x mod 2 ^ 64 = y mod 2 ^ 64).
Proof.
  split; [apply asUint64String_hex_value | ].
  split.
  - intros H. rewrite <- (asUint64String_hex_value x), H.
    apply asUint64String_hex_value.
  - intros H. unfold Util.asUint64String. rewrite H. reflexivity.
Qed.

(** ** [compareWeight] *)

Lemma digit_value_bound (c : ascii) : 0 <= Util.digit_value c < 16.
Proof.
  unfold Util.digit_value.
  destruct (Z.leb_spec 48 (Z.of_N (N_of_ascii c))),
    (Z.leb_spec (Z.of_N (N_of_ascii c)) 57),
    (Z.leb_spec 97 (Z.of_N (N_of_ascii c))),
    (Z.leb_spec (Z.of_N (N_of_ascii c)) 102),
    (Z.leb_spec 65 (Z.of_N (N_of_ascii c))),
    (Z.leb_spec (Z.of_N (N_of_ascii c)) 70); cbn [andb]; lia.
Qed.

Lemma hex_value_bound (s : string) :
  0 <= Util.hex_value s < 16 ^ Z.of_nat (String.length s).
Proof.
  induction s as [ | c s IH]; cbn [Util.hex_value String.length].
  - cbn. lia.
  - pose proof (digit_value_bound c) as Hc.
    rewrite Nat2Z.inj_succ, Z.pow_succ_r by lia. nia.
Qed.

(** On the digits [0-9a-f] the order of the code units is the order of the
    digit values. *)
Lemma compare_lower_hex_char (c1 c2 : ascii) :
  Util.lower_hex_char c1 = true -> Util.lower_hex_char c2 = true ->
  Ascii.compare c1 c2 = (Util.digit_value c1 ?= Util.digit_value c2).
Proof.
  unfold Util.lower_hex_char, Util.digit_value, Ascii.compare.
  rewrite <- N2Z.inj_compare.
  generalize (N_of_ascii c1) (N_of_ascii c2). intros n1 n2 H1 H2.
  apply orb_true_iff in H1, H2.
  rewrite !andb_true_iff, !N.leb_le in H1, H2.
  destruct (Z.leb_spec 48 (Z.of_N n1)), (Z.leb_spec (Z.of_N n1) 57),
    (Z.leb_spec 97 (Z.of_N n1)), (Z.leb_spec (Z.of_N n1) 102),
    (Z.leb_spec 48 (Z.of_N n2)), (Z.leb_spec (Z.of_N n2) 57),
    (Z.leb_spec 97 (Z.of_N n2)), (Z.leb_spec (Z.of_N n2) 102);
    cbn [andb]; try lia;
    destruct (Z.compare_spec (Z.of_N n1) (Z.of_N n2));
    symmetry; first [apply Z.compare_eq_iff | apply Z.compare_lt_iff
                     | apply Z.compare_gt_iff]; lia.
Qed.

Lemma compare_lower_hex (s1 s2 : string) :
  String.length s1 = String.length s2 ->
  Util.all_chars Util.lower_hex_char s1 = true ->
  Util.all_chars Util.lower_hex_char s2 = true ->
  String.compare s1 s2 = (Util.hex_value s1 ?= Util.hex_value s2).
Proof.
  revert s2. induction s1 as [ | c1 s1 IH]; intros [ | c2 s2] Hlen H1 H2;
    try discriminate Hlen.
  - reflexivity.
  - cbn [String.length] in Hlen. injection Hlen as Hlen.
    cbn [Util.all_chars] in H1, H2.
    apply andb_true_iff in H1 as [Hc1 Hs1], H2 as [Hc2 Hs2].
    cbn [String.compare Util.hex_value].
    rewrite (compare_lower_hex_char c1 c2 Hc1 Hc2), (IH s2 Hlen Hs1 Hs2).
    rewrite Hlen.
    pose proof (hex_value_bound s1) as B1.
    pose proof (hex_value_bound s2) as B2.
    rewrite Hlen in B1.
    pose proof (digit_value_bound c1) as D1.
    pose proof (digit_value_bound c2) as D2.
    set (w := 16 ^ Z.of_nat (String.length s2)) in *.
    destruct (Z.compare_spec (Util.digit_value c1) (Util.digit_value c2))
      as [E | L | G].
    + rewrite E. symmetry.
      destruct (Z.compare_spec (Util.hex_value s1) (Util.hex_value s2));
        [apply Z.compare_eq_iff | apply Z.compare_lt_iff
         | apply Z.compare_gt_iff]; lia.
    + symmetry. apply Z.compare_lt_iff. nia.
    + symmetry. apply Z.compare_gt_iff. nia.
Qed.

Lemma compareWeight_sign (weight1 weight2 : string) :
  Util.compareWeight weight1 weight2
  = Util.sign_of
      (String.compare
         (Js.padStart weight1
            (Nat.max (String.length weight1) (String.length weight2)) "0")
         (Js.padStart weight2
            (Nat.max (String.length weight1) (String.length weight2)) "0")).
Proof.
  unfold Util.compareWeight, Js.gt, Js.lt. cbn zeta.
  destruct (String.compare _ _); reflexivity.
Qed.

(** X13.  [compareWeight] is antisymmetric, gives 0 for a weight against
    itself, and gives 0 exactly when the weights are the same up to
    leading characters ["0"]. *)
Theorem compareWeight_antisym (weight1 weight2 : string) :
  Util.compareWeight weight2 weight1 = - Util.compareWeight weight1 weight2
  /\ Util.compareWeight weight1 weight1 = 0
  /\ (Util.compareWeight weight1 weight2 = 0
      <-> Js.padStart weight1
            (Nat.max (String.length weight1) (String.length weight2)) "0"
          = Js.padStart weight2
              (Nat.max (String.length weight1) (String.length weight2)) "0").
Proof.
  split; [ | split].
  - rewrite !compareWeight_sign, (Nat.max_comm (String.length weight2)).
    rewrite String.compare_antisym.
    destruct (String.compare _ _); reflexivity.
  - rewrite compareWeight_sign.
    replace (String.compare _ _) with Eq; [reflexivity | ].
    symmetry. generalize (Js.padStart weight1
      (Nat.max (String.length weight1) (String.length weight1)) "0").
    intros s. induction s as [ | c s IH]; cbn; [reflexivity | ].
    unfold Ascii.compare. rewrite N.compare_refl. exact IH.
  - rewrite compareWeight_sign. split.
    + intros H. apply String.compare_eq_iff.
      destruct (String.compare _ _); [reflexivity | discriminate H
                                      | discriminate H].
    + intros H. rewrite H.
      replace (String.compare _ _) with Eq; [reflexivity | ].
      symmetry. generalize (Js.padStart weight2
        (Nat.max (String.length weight1) (String.length weight2)) "0").
      intros s. induction s as [ | c s IH]; cbn; [reflexivity | ].
      unfold Ascii.compare. rewrite N.compare_refl. exact IH.
Qed.

Lemma compareWeight_lower_hex (weight1 weight2 : string) :
  Util.all_chars Util.lower_hex_char weight1 = true ->
  Util.all_chars Util.lower_hex_char weight2 = true ->
  Util.compareWeight weight1 weight2
  = Util.sign_of (Util.hex_value weight1 ?= Util.hex_value weight2).
Proof.
  intros H1 H2. rewrite compareWeight_sign, compare_lower_hex.
  - rewrite !hex_value_padStart. reflexivity.
  - rewrite !length_padStart_one. lia.
  - rewrite padStart_one, all_chars_append, H1, all_chars_chars; reflexivity.
  - rewrite padStart_one, all_chars_append, H2, all_chars_chars; reflexivity.
Qed.

(** X14.  On weights written with the digits [0-9a-f], of any lengths,
    [compareWeight] compares the numbers they denote: 1 for a greater first
    weight, -1 for a smaller one, 0 for equal numbers. *)
Theorem compareWeight_numeric (weight1 weight2 : string) :
  Util.all_chars Util.lower_hex_char weight1 = true ->
  Util.all_chars Util.lower_hex_char weight2 = true ->
  (Util.hex_value weight1 > Util.hex_value weight2 ->
   Util.compareWeight weight1 weight2 = 1)
  /\ (Util.hex_value weight1 < Util.hex_value weight2 ->
      Util.compareWeight weight1 weight2 = -1)
  /\ (Util.hex_value weight1 = Util.hex_value weight2 ->
      Util.compareWeight weight1 weight2 = 0).
Proof.
  intros H1 H2. rewrite (compareWeight_lower_hex _ _ H1 H2).
  repeat split; intros H.
  - unfold Z.gt in H. rewrite H. reflexivity.
  - apply Z.compare_lt_iff in H. rewrite H. reflexivity.
  - apply Z.compare_eq_iff in H. rewrite H. reflexivity.
Qed.

(** X15.  The strings of [asUint64String] compare as the numbers do:
    [compareWeight] on them is the comparison of the arguments modulo
    [2 ^ 64]. *)
Theorem compareWeight_asUint64String (x y : Z) :
  Util.compareWeight (Util.asUint64String x) (Util.asUint64String y)
  = Util.sign_of (x mod 2 ^ 64 ?= y mod 2 ^ 64).
Proof.
  rewrite compareWeight_lower_hex by apply asUint64String_lower.
  rewrite !asUint64String_hex_value. reflexivity.
Qed.

(** ** [fidFormat] *)

Lemma t_length (s : string) (m : nat) :
  (String.length (Util.t s m) <= m + 1)%nat.
Proof.
  unfold Util.t. destruct (Nat.ltb_spec m (String.length s)) as [H | H].
  - rewrite length_append, length_substring_prefix by lia. cbn. lia.
  - lia.
Qed.

Lemma tJoin_reduce_concat (array : list string) (max : nat) (d : string)
    (i : nat) (a : string) :
  Util.tJoin_reduce array max d
    (Z.of_nat i + Z.of_nat (List.length array) - 1) i a
  = (a ++ String.concat d (map (fun c => Util.t c max) array))%string.
Proof.
  revert i a. induction array as [ | c rest IH]; intros i a.
  - cbn. rewrite append_empty_r. reflexivity.
  - cbn [Util.tJoin_reduce List.length map].
    replace (Z.of_nat i + Z.of_nat (S (List.length rest)) - 1)
      with (Z.of_nat (S i) + Z.of_nat (List.length rest) - 1) by lia.
    rewrite IH. destruct rest as [ | c' rest].
    + replace (Z.of_nat i <? Z.of_nat (S i) + Z.of_nat (List.length []) - 1)
        with false by (symmetry; apply Z.ltb_ge; cbn [List.length]; lia).
      cbn. rewrite !append_empty_r. reflexivity.
    + replace (Z.of_nat i
               <? Z.of_nat (S i) + Z.of_nat (List.length (c' :: rest)) - 1)
        with true by (symmetry; apply Z.ltb_lt; cbn [List.length]; lia).
      cbn [map String.concat]. rewrite !append_assoc. reflexivity.
Qed.

Lemma length_concat_bound (d : string) (parts : list string) (b : nat) :
  (forall part, In part parts -> (String.length part <= b)%nat) ->
  (String.length (String.concat d parts)
   <= (b + String.length d) * List.length parts)%nat.
Proof.
  induction parts as [ | part parts IH]; intros Hb; [cbn; lia | ].
  assert (Hp : (String.length part <= b)%nat) by (apply Hb; left; reflexivity).
  assert (IH' : (String.length (String.concat d parts)
                 <= (b + String.length d) * List.length parts)%nat).
  { apply IH. intros q Hq. apply Hb. right. exact Hq. }
  destruct parts as [ | part' parts]; cbn [String.concat List.length] in *.
  - lia.
  - rewrite !length_append. lia.
Qed.

(** X16.  [fidFormat] writes the name, an opening bracket, the arguments
    separated by ", " (no separator after the last) and "):".  An argument
    of at most 8 characters is written as it is, a longer one as its first
    8 characters and "~"; the whole is at most 11 characters per argument
    longer than the name and the 3 characters of the frame. *)
Theorem fidFormat_spec (fid : string) (args : list string) :
  Util.fidFormat fid args
  = (fid ++ "(" ++ String.concat ", " (map (fun s => Util.t s 8) args)
     ++ "):")%string
  /\ (forall s, (String.length s <= 8)%nat -> Util.t s 8 = s)
  /\ (forall s, (8 < String.length s)%nat ->
        Util.t s 8 = (String.substring 0 8 s ++ "~")%string
        /\ String.length (Util.t s 8) = 9%nat)
  /\ (String.length (Util.fidFormat fid args)
      <= String.length fid + 3 + 11 * List.length args)%nat.
Proof.
  assert (Hjoin : Util.tJoin args 8 ", "
                  = String.concat ", " (map (fun s => Util.t s 8) args)).
  { unfold Util.tJoin. cbn zeta.
    pose proof (tJoin_reduce_concat args 8 ", " 0 "") as H.
    change (Z.of_nat 0) with 0 in H. rewrite Z.add_0_l in H.
    exact H. }
  assert (Hfmt : Util.fidFormat fid args
    = (fid ++ "(" ++ String.concat ", " (map (fun s => Util.t s 8) args)
       ++ "):")%string).
  { unfold Util.fidFormat. rewrite Hjoin. cbn [String.concat]. reflexivity. }
  split; [exact Hfmt | ]. split; [ | split].
  - intros s Hs. unfold Util.t.
    replace (8 <? String.length s)%nat with false
      by (symmetry; apply Nat.ltb_ge; exact Hs).
    reflexivity.
  - intros s Hs. unfold Util.t.
    replace (8 <? String.length s)%nat with true
      by (symmetry; apply Nat.ltb_lt; exact Hs).
    split; [reflexivity | ].
    rewrite length_append, length_substring_prefix by lia. reflexivity.
  - rewrite Hfmt, !length_append.
    pose proof (length_concat_bound ", " (map (fun s => Util.t s 8) args) 9)
      as Hc.
    rewrite length_map in Hc.
    assert (Hparts : forall part,
              In part (map (fun s => Util.t s 8) args) ->
              (String.length part <= 9)%nat).
    { intros part Hin. apply in_map_iff in Hin as (s & <- & _).
      pose proof (t_length s 8). lia. }
    specialize (Hc Hparts). cbn [String.length] in *. lia.
Qed.

(** ** [objectDifference] *)

Lemma strict_eq_refl (v : Util.ovalue) :
  Util.isNaN v = false -> Util.strict_eq v v = true.
Proof.
  destruct v; cbn; intros H; try reflexivity; try discriminate H.
  - destruct b; reflexivity.
  - apply Z.eqb_refl.
  - apply String.eqb_refl.
  - apply Nat.eqb_refl.
  - apply Nat.eqb_refl.
Qed.

Lemma isNaN_true (v : Util.ovalue) : Util.isNaN v = true -> v = Util.ONaN.
Proof. destruct v; cbn; intros H; try discriminate H. reflexivity. Qed.

Lemma find_prop_in {A : Type} (props : list (string * A)) (k : string)
    (v : A) :
  NoDup (map fst props) -> In (k, v) props -> Util.find_prop props k = Some v.
Proof.
  induction props as [ | [k' v'] props IH]; intros Hnd Hin; [destruct Hin | ].
  cbn [map fst] in Hnd. apply NoDup_cons_iff in Hnd as [Hnot Hnd].
  cbn [Util.find_prop]. destruct Hin as [E | Hin].
  - injection E as -> ->. rewrite String.eqb_refl. reflexivity.
  - destruct (String.eqb_spec k' k) as [-> | Hne]; [ | exact (IH Hnd Hin)].
    exfalso. apply Hnot. apply in_map_iff. exists (k, v). auto.
Qed.

Lemma find_prop_none {A : Type} (props : list (string * A)) (k : string) :
  ~ In k (map fst props) -> Util.find_prop props k = None.
Proof.
  induction props as [ | [k' v'] props IH]; intros Hnot; [reflexivity | ].
  cbn [Util.find_prop]. destruct (String.eqb_spec k' k) as [-> | Hne].
  - exfalso. apply Hnot. left. reflexivity.
  - apply IH. intros Hin. apply Hnot. right. exact Hin.
Qed.

Lemma find_with_prop {A : Type} (objC : list (string * A)) (key k : string)
    (value : A) :
  Util.find_prop (Util.with_prop objC key value) k
  = if String.eqb key k then Some value else Util.find_prop objC k.
Proof.
  induction objC as [ | [k' v'] objC IH]; cbn [Util.with_prop Util.find_prop].
  - reflexivity.
  - destruct (String.eqb_spec k' key) as [-> | Hne]; cbn [Util.find_prop].
    + destruct (String.eqb key k); reflexivity.
    + rewrite IH. destruct (String.eqb_spec k' k) as [-> | Hk];
        [ | reflexivity].
      replace (String.eqb key k) with false; [reflexivity | ].
      symmetry. apply String.eqb_neq. congruence.
Qed.

(** A property of a new name is added last. *)
Lemma with_prop_fresh {A : Type} (objC : list (string * A)) (key : string)
    (value : A) :
  ~ In key (map fst objC) ->
  Util.with_prop objC key value = (objC ++ [(key, value)])%list.
Proof.
  induction objC as [ | [k v] objC IH]; intros Hnot; [reflexivity | ].
  cbn [Util.with_prop]. destruct (String.eqb_spec k key) as [-> | Hne].
  - exfalso. apply Hnot. left. reflexivity.
  - cbn [app]. rewrite IH; [reflexivity | ].
    intros Hin. apply Hnot. right. exact Hin.
Qed.

Section DifferenceFacts.

Variable inherited : nat -> string -> Util.ovalue.

Lemma objectDifference_objects (ra rb : nat)
    (pa pb : list (string * Util.ovalue)) (depth : Z) :
  Util.objectDifference inherited (Util.OObject ra pa) (Util.OObject rb pb)
    depth
  = Util.difference_reduce inherited
      (fun a value => Util.objectDifference inherited a value (depth - 1))
      (negb (depth - 1 =? 0)) (Util.OObject ra pa) pb [].
Proof. reflexivity. Qed.

(** Entries that [objA] has with the same values are passed over, unless
    the value is NaN. *)
Lemma difference_reduce_same recur descend (ra : nat)
    (pa entries : list (string * Util.ovalue))
    (objC : list (string * Util.dvalue)) :
  (forall k v, In (k, v) entries -> Util.find_prop pa k = Some v) ->
  NoDup (map fst entries) ->
  (forall k, In k (map fst entries) -> ~ In k (map fst objC)) ->
  Util.difference_reduce inherited recur descend (Util.OObject ra pa)
    entries objC
  = Some (objC ++ map (fun kv => (fst kv, Util.Kept Util.ONaN))
                      (filter (fun kv => Util.isNaN (snd kv)) entries))%list.
Proof.
  revert objC.
  induction entries as [ | [k v] entries IH]; intros objC Hsame Hnd Hfresh.
  - cbn. rewrite app_nil_r. reflexivity.
  - cbn [map fst] in Hnd. apply NoDup_cons_iff in Hnd as [Hnot Hnd].
    assert (Hrest : forall k' v', In (k', v') entries ->
                      Util.find_prop pa k' = Some v').
    { intros k' v' Hin. apply Hsame. right. exact Hin. }
    cbn [Util.difference_reduce Util.member filter snd].
    rewrite (Hsame k v) by (left; reflexivity).
    destruct (Util.isNaN v) eqn:Hnan.
    + apply isNaN_true in Hnan. subst v.
      cbn [Util.strict_eq Util.typeof_object andb].
      rewrite with_prop_fresh by (apply Hfresh; left; reflexivity).
      rewrite IH; [ | exact Hrest | exact Hnd | ].
      * cbn [map fst]. rewrite <- app_assoc. reflexivity.
      * intros k' Hk' Hin. rewrite map_app in Hin.
        apply in_app_or in Hin as [Hin | [<- | []]].
        -- apply (Hfresh k'); [right; exact Hk' | exact Hin].
        -- apply Hnot. exact Hk'.
    + rewrite (strict_eq_refl v Hnan). apply IH; [exact Hrest | exact Hnd | ].
      intros k' Hk'. apply Hfresh. right. exact Hk'.
Qed.

(** X20.  The difference of an object to an object with the same own
    properties, itself or a copy, holds exactly the properties whose value
    is NaN, which is not equal to itself; it is empty, at every depth, when
    no property is NaN. *)
Theorem objectDifference_same (ra rb : nat)
    (props : list (string * Util.ovalue)) (depth : Z) :
  NoDup (map fst props) ->
  Util.objectDifference inherited (Util.OObject ra props)
    (Util.OObject rb props) depth
  = Some (map (fun kv => (fst kv, Util.Kept Util.ONaN))
              (filter (fun kv => Util.isNaN (snd kv)) props))
  /\ ((forall k, ~ In (k, Util.ONaN) props) ->
      Util.objectDifference inherited (Util.OObject ra props)
        (Util.OObject rb props) depth
      = Some []).
Proof.
  intros Hnd.
  assert (Hall : Util.objectDifference inherited (Util.OObject ra props)
                   (Util.OObject rb props) depth
                 = Some (map (fun kv => (fst kv, Util.Kept Util.ONaN))
                           (filter (fun kv => Util.isNaN (snd kv)) props))).
  { rewrite objectDifference_objects.
    rewrite difference_reduce_same; [reflexivity | | exact Hnd | ].
    - intros k v Hin. apply find_prop_in; assumption.
    - intros k _ []. }
  split; [exact Hall | ].
  intros Hnone. rewrite Hall. f_equal.
  replace (filter (fun kv => Util.isNaN (snd kv)) props) with
    (@nil (string * Util.ovalue)); [reflexivity | ].
  symmetry. clear - Hnone.
  induction props as [ | [k v] props IH]; [reflexivity | ].
  cbn [filter snd]. destruct (Util.isNaN v) eqn:Hnan.
  - apply isNaN_true in Hnan. subst v.
    exfalso. apply (Hnone k). left. reflexivity.
  - apply IH. intros k' Hin. apply (Hnone k'). right. exact Hin.
Qed.

(** What the reduction adds to [objC], with [depth - 1 = 0]. *)
Lemma difference_reduce_shallow recur (ra : nat)
    (pa entries : list (string * Util.ovalue))
    (objC : list (string * Util.dvalue)) :
  NoDup (map fst entries) ->
  exists d,
    Util.difference_reduce inherited recur false (Util.OObject ra pa)
      entries objC
    = Some d
    /\ (forall k, ~ In k (map fst entries) ->
          Util.find_prop d k = Util.find_prop objC k)
    /\ (forall k v, In (k, v) entries ->
          let a := match Util.find_prop pa k with
                   | Some a => a
                   | None => inherited ra k
                   end in
          Util.find_prop d k
          = if Util.strict_eq a v then Util.find_prop objC k
            else Some (Util.Kept v)).
Proof.
  revert objC. induction entries as [ | [k v] entries IH]; intros objC Hnd.
  - exists objC. repeat split. intros k v [].
  - cbn [map fst] in Hnd. apply NoDup_cons_iff in Hnd as [Hnot Hnd].
    cbn [Util.difference_reduce Util.member].
    set (a := match Util.find_prop pa k with
              | Some a => a
              | None => inherited ra k
              end).
    assert (Hstep : forall objC',
      (objC' = objC \/ objC' = Util.with_prop objC k (Util.Kept v)) ->
      (Util.find_prop objC' k
       = if Util.strict_eq a v then Util.find_prop objC k
         else Some (Util.Kept v)) ->
      exists d,
        Util.difference_reduce inherited recur false (Util.OObject ra pa)
          entries objC'
        = Some d
        /\ (forall k0, ~ In k0 (map fst ((k, v) :: entries)) ->
              Util.find_prop d k0 = Util.find_prop objC k0)
        /\ (forall k0 v0, In (k0, v0) ((k, v) :: entries) ->
              let a0 := match Util.find_prop pa k0 with
                        | Some a0 => a0
                        | None => inherited ra k0
                        end in
              Util.find_prop d k0
              = if Util.strict_eq a0 v0 then Util.find_prop objC k0
                else Some (Util.Kept v0))).
    { intros objC' Hshape Hk.
      assert (Hother : forall k0, k0 <> k ->
                Util.find_prop objC' k0 = Util.find_prop objC k0).
      { intros k0 Hk0. destruct Hshape as [-> | ->]; [reflexivity | ].
        rewrite find_with_prop.
        replace (String.eqb k k0) with false; [reflexivity | ].
        symmetry. apply String.eqb_neq. congruence. }
      destruct (IH objC' Hnd) as (d & Hd & Hout & Hin).
      exists d. split; [exact Hd | ]. split.
      - intros k0 Hk0. rewrite Hout.
        + apply Hother. intros ->. apply Hk0. left. reflexivity.
        + intros H. apply Hk0. right. exact H.
      - intros k0 v0 [E | Hin0].
        + injection E as <- <-. rewrite (Hout k Hnot). exact Hk.
        + cbn zeta. rewrite (Hin k0 v0 Hin0). cbn zeta.
          rewrite Hother; [reflexivity | ].
          intros ->. apply Hnot. apply in_map_iff. exists (k, v0). auto. }
    destruct (Util.strict_eq a v) eqn:Heq.
    + apply Hstep; [left; reflexivity | reflexivity].
    + assert (Hadd : Util.find_prop (Util.with_prop objC k (Util.Kept v)) k
                     = Some (Util.Kept v)).
      { rewrite find_with_prop, String.eqb_refl. reflexivity. }
      destruct (Util.typeof_object v && Util.typeof_object a);
        apply Hstep; try (right; reflexivity); exact Hadd.
Qed.

(** X21.  At the depth 1 the difference of two objects is never a
    TypeError, and holds exactly the properties of [objB] whose value is not
    what [objA] yields under the same name (an own property or, without
    one, an inherited property; an object counts as the same only if it is
    the same object), as they are in [objB]. *)
Theorem objectDifference_shallow (ra rb : nat)
    (pa pb : list (string * Util.ovalue)) :
  NoDup (map fst pb) ->
  exists d,
    Util.objectDifference inherited (Util.OObject ra pa) (Util.OObject rb pb)
      1 = Some d
    /\ (forall k, ~ In k (map fst pb) -> Util.find_prop d k = None)
    /\ (forall k v, In (k, v) pb ->
          Util.member inherited (Util.OObject ra pa) k <> None
          /\ forall a, Util.member inherited (Util.OObject ra pa) k = Some a ->
               (Util.strict_eq a v = true /\ Util.find_prop d k = None)
               \/ (Util.strict_eq a v = false
                   /\ Util.find_prop d k = Some (Util.Kept v))).
Proof.
  intros Hnd. rewrite objectDifference_objects.
  change (negb (1 - 1 =? 0)) with false.
  destruct (difference_reduce_shallow
              (fun a value => Util.objectDifference inherited a value (1 - 1))
              ra pa pb [] Hnd) as (d & Hd & Hout & Hin).
  exists d. split; [exact Hd | ]. split.
  - intros k Hk. rewrite (Hout k Hk). reflexivity.
  - intros k v Hkv. split; [discriminate | ].
    intros a Ha. cbn [Util.member] in Ha. injection Ha as <-.
    specialize (Hin k v Hkv). cbn zeta in Hin.
    destruct (Util.strict_eq _ v); [left | right]; split;
      try reflexivity; exact Hin.
Qed.

(** X22.  [objectDifference] throws a TypeError when an argument is not of
    type "object", when [objB] is [null], and when [objA] is [null] while
    [objB] has a property; [null] against an object without properties
    gives the empty difference. *)
Theorem objectDifference_TypeError (objA objB : Util.ovalue) (depth : Z) :
  (Util.typeof_object objA = false \/ Util.typeof_object objB = false ->
   Util.objectDifference inherited objA objB depth = None)
  /\ (objB = Util.ONull ->
      Util.objectDifference inherited objA objB depth = None)
  /\ (forall rb k v rest,
        objA = Util.ONull -> objB = Util.OObject rb ((k, v) :: rest) ->
        Util.objectDifference inherited objA objB depth = None)
  /\ (forall rb,
        objA = Util.ONull -> objB = Util.OObject rb [] ->
        Util.objectDifference inherited objA objB depth = Some []).
Proof.
  repeat apply conj.
  - intros Hor.
    destruct objA, objB; cbn [Util.typeof_object] in Hor; try reflexivity;
      destruct Hor as [H | H]; discriminate H.
  - intros ->. destruct objA; reflexivity.
  - intros rb k v rest -> ->. reflexivity.
  - intros rb -> ->. reflexivity.
Qed.

(** Induction on a value and on the values of its properties. *)
Lemma ovalue_nested_ind (P : Util.ovalue -> Prop) :
  P Util.OUndefined -> P Util.ONull ->
  (forall b, P (Util.OBoolean b)) -> (forall n, P (Util.ONumber n)) ->
  P Util.ONaN ->
  (forall s, P (Util.OString s)) -> (forall ref, P (Util.OFunction ref)) ->
  (forall ref props,
     Forall (fun kv => P (snd kv)) props -> P (Util.OObject ref props)) ->
  forall v, P v.
Proof.
  intros Hu Hn Hb Hz Hnan Hs Hf Ho. fix IH 1.
  intros [ | | b | n | | s | f | ref props].
  - exact Hu.
  - exact Hn.
  - apply Hb.
  - apply Hz.
  - exact Hnan.
  - apply Hs.
  - apply Hf.
  - apply Ho. induction props as [ | [k v] props IHprops].
    + constructor.
    + constructor; [apply IH | exact IHprops].
Qed.

(** X23.  At the default depth 0, and at every depth below, the
    comparison is deep: objects that are alike up to the identity of the
    objects in them have the empty difference. *)
Theorem objectDifference_alike (ra rb : nat)
    (pa pb : list (string * Util.ovalue)) (depth : Z) :
  depth <= 0 ->
  Util.alike (Util.OObject ra pa) (Util.OObject rb pb) ->
  Util.well_keyed (Util.OObject ra pa) ->
  Util.objectDifference inherited (Util.OObject ra pa) (Util.OObject rb pb)
    depth
  = Some [].
Proof.
  intros Hdepth Halike Hkeys.
  enough (H : forall b a depth ra pa rb pb,
            depth <= 0 -> Util.alike a b -> Util.well_keyed a ->
            a = Util.OObject ra pa -> b = Util.OObject rb pb ->
            Util.objectDifference inherited a b depth = Some [])
    by (eapply H; eauto).
  clear. intros b. induction b as [ | | x | n | | s | f | ref props IH]
    using ovalue_nested_ind;
    intros a depth ra pa rb pb Hdepth Halike Hkeys -> Hb;
    try discriminate Hb.
  injection Hb as -> ->.
  inversion Halike as [a b Hprim _ | ra' rb' pa' pb' Hall]; subst;
    [exfalso; eapply Hprim; reflexivity | ].
  inversion Hkeys as [ | | | | | | | ref' props' Hnd Hwk]; subst.
  rewrite objectDifference_objects.
  replace (negb (depth - 1 =? 0)) with true
    by (symmetry; apply negb_true_iff, Z.eqb_neq; lia).
  match type of IH with
  | Forall ?Q _ =>
      assert (Hred : forall suffix entries,
        Forall2 (fun x y => fst x = fst y /\ Util.alike (snd x) (snd y))
                suffix entries ->
        Forall Q entries ->
        Forall (fun kv => Util.well_keyed (snd kv)) suffix ->
        (forall kv, In kv suffix -> In kv pa) ->
        Util.difference_reduce inherited
          (fun a value => Util.objectDifference inherited a value (depth - 1))
          true (Util.OObject ra pa) entries [] = Some [])
  end.
  { clear IH Hall Hwk Halike Hkeys. intros suffix entries Hall.
    induction Hall as [ | [ka va] [kb vb] suffix entries [Hk Hv] Hall IHall];
      intros IH Hwk Hsub; [reflexivity | ].
    cbn [fst snd] in Hk, Hv. subst kb.
    apply Forall_cons_iff in IH as [IHv IH].
    apply Forall_cons_iff in Hwk as [Hwv Hwk]. cbn [snd] in IHv, Hwv.
    cbn [Util.difference_reduce Util.member].
    rewrite (find_prop_in pa ka va Hnd) by (apply Hsub; left; reflexivity).
    assert (Hrest : Util.difference_reduce inherited
              (fun a value =>
                 Util.objectDifference inherited a value (depth - 1))
              true (Util.OObject ra pa) entries [] = Some []).
    { apply IHall; [exact IH | exact Hwk | ].
      intros kv Hin. apply Hsub. right. exact Hin. }
    destruct (Util.strict_eq va vb) eqn:Heq; [exact Hrest | ].
    inversion Hv as [a b Hprim Hs | ra' rb' pa' pb' Hall']; subst;
      [congruence | ].
    cbn [Util.typeof_object andb].
    assert (Hd : Util.objectDifference inherited (Util.OObject ra' pa')
                   (Util.OObject rb' pb') (depth - 1) = Some []).
    { apply (IHv _ _ ra' pa' rb' pb');
        [lia | exact Hv | exact Hwv | reflexivity | reflexivity]. }
    rewrite Hd. cbn [Util.objectIsEmpty]. exact Hrest. }
  apply (Hred pa pb Hall IH Hwk). auto.
Qed.

End DifferenceFacts.

(** ** [isPrivateIPv4] *)

Section IPv4Facts.

Variable StringToInteger : string -> Z.



(** The [if] chain of lines 158-164 on the bytes [c0] and [c1]. *)
Lemma address_class (ip : Js.value) (c0 c1 c2 c3 : Z) :
  Util.ip_bytes StringToInteger ip = [c0; c1; c2; c3] ->
  0 <= c1 < 256 ->
  let r := Util.isPrivateIPv4 StringToInteger ip in
  (r = 1 <-> c0 = 0 \/ c0 = 127 \/ c0 = 10)
  /\ (r = 2 <-> c0 = 172 /\ 16 <= c1 <= 31)
  /\ (r = 3 <-> c0 = 192 /\ c1 = 168)
  /\ (r = 4 <-> c0 = 169 /\ c1 = 254)
  /\ (r = 0 \/ r = 1 \/ r = 2 \/ r = 3 \/ r = 4).
Proof.
  intros Hbytes H1 r. unfold r, Util.isPrivateIPv4. rewrite Hbytes.
  cbn [nth]. change 255 with (Z.ones 8).
  rewrite Z.land_ones, Z.mod_small by lia.
  clear Hbytes r.
  destruct (Z.eqb_spec c0 0), (Z.eqb_spec c0 127), (Z.eqb_spec c0 10),
    (Z.eqb_spec c0 172), (Z.eqb_spec c0 192), (Z.eqb_spec c0 169);
    cbn [orb andb]; try lia;
    destruct (Z.leb_spec 16 c1), (Z.leb_spec c1 31), (Z.eqb_spec c1 168),
      (Z.eqb_spec c1 254); cbn [orb andb]; lia.
Qed.

(** X17.  For a Number the first octet is the low byte.  The answer is 1
    for the first octets 0, 127 and 10, 2 for 172 with a second octet from
    16 to 31, 3 for 192.168, 4 for 169.254, and 0 otherwise; only the
    number modulo [2 ^ 32] counts. *)
Theorem isPrivateIPv4_number (n k : Z) :
  let r := Util.isPrivateIPv4 StringToInteger (Js.Number n) in
  let b0 := n mod 256 in
  let b1 := (n / 256) mod 256 in
  (r = 1 <-> b0 = 0 \/ b0 = 127 \/ b0 = 10)
  /\ (r = 2 <-> b0 = 172 /\ 16 <= b1 <= 31)
  /\ (r = 3 <-> b0 = 192 /\ b1 = 168)
  /\ (r = 4 <-> b0 = 169 /\ b1 = 254)
  /\ (r = 0 \/ r = 1 \/ r = 2 \/ r = 3 \/ r = 4)
  /\ Util.isPrivateIPv4 StringToInteger (Js.Number (n + k * 2 ^ 32)) = r.
Proof.
  intros r b0 b1.
  assert (Hb : Util.ip_bytes StringToInteger (Js.Number n)
               = [b0; b1; (n / 2 ^ 16) mod 256; (n / 2 ^ 24) mod 256]).
  { cbn [Util.ip_bytes]. unfold b0, b1.
    change (2 ^ 8) with 256. change (2 ^ 16) with 65536.
    change (2 ^ 24) with 16777216. change (2 ^ 32) with 4294967296.
    clear.
    f_equal; [ | f_equal; [ | f_equal; [ | f_equal]]];
      Z.to_euclidean_division_equations; lia. }
  assert (H1 : 0 <= b1 < 256) by (apply Z.mod_pos_bound; lia).
  destruct (address_class _ _ _ _ _ Hb H1) as (R1 & R2 & R3 & R4 & R).
  fold r in R1, R2, R3, R4, R.
  repeat apply conj; try assumption; try apply R1; try apply R2;
    try apply R3; try apply R4.
  unfold r, Util.isPrivateIPv4. cbn [Util.ip_bytes].
  rewrite Z.mod_add by lia. reflexivity.
Qed.


End IPv4Facts.

(** ** The heuristic [algo] *)

Section AlgoFacts.

Variables photo regex : Type.
Variable ts : list regex.
Variable matches : regex -> photo -> Z.

Local Abbreviation score := (Util.algo_score photo regex ts matches).
Local Abbreviation best := (Util.algo_best photo regex ts matches).

Lemma algo_loop_best (whole arr : list photo) (i pi : nat) (ps : Z) :
  (forall k, nth_error arr k = nth_error whole (i + k)) ->
  (i + List.length arr = List.length whole)%nat ->
  best whole i pi ps ->
  best whole (List.length whole)
    (fst (Util.algo_loop photo regex ts matches arr i pi ps))
    (snd (Util.algo_loop photo regex ts matches arr i pi ps)).
Proof.
  revert i pi ps. induction arr as [ | p rest IH]; intros i pi ps Hsuf Hlen Hb.
  - cbn in *. replace (List.length whole) with i by lia. exact Hb.
  - cbn [Util.algo_loop].
    assert (Hp : nth_error whole i = Some p).
    { pose proof (Hsuf 0%nat) as H0. rewrite Nat.add_0_r in H0.
      symmetry. exact H0. }
    assert (Hsuf' : forall k, nth_error rest k = nth_error whole (S i + k)).
    { intros k. pose proof (Hsuf (S k)) as Hk. cbn [nth_error] in Hk.
      rewrite Hk. f_equal. lia. }
    assert (Hlen' : (S i + List.length rest = List.length whole)%nat).
    { cbn [List.length] in Hlen. lia. }
    destruct Hb as [Hle Hcase].
    destruct (Z.ltb_spec ps (score p)) as [Hlt | Hge]; apply IH; try assumption.
    + split.
      * intros j q Hj Hq. destruct (Nat.eq_dec j i) as [-> | Hne].
        -- rewrite Hp in Hq. injection Hq as <-. lia.
        -- assert (score q <= ps) by (apply (Hle j); [lia | exact Hq]). lia.
      * right. split; [ | split; [lia | ]].
        -- destruct Hcase as [[-> _] | [H0 _]]; lia.
        -- exists p. repeat split; try assumption.
           intros j q Hj Hq.
           assert (score q <= ps) by (apply (Hle j); [lia | exact Hq]). lia.
    + split.
      * intros j q Hj Hq. destruct (Nat.eq_dec j i) as [-> | Hne].
        -- rewrite Hp in Hq. injection Hq as <-. lia.
        -- apply (Hle j); [lia | exact Hq].
      * destruct Hcase as [Hz | (H0 & Hpi & Hex)]; [left; exact Hz | ].
        right. repeat split; try assumption. lia.
Qed.

(** X19.  [algo] returns the greatest score, or 0 when no photo scores
    above 0.  With a score above 0 the photo is the first one of the array
    that reaches it; with the score 0 it is the first photo of the array
    ([undefined] for an empty array). *)
Theorem algo_first_best (arr : list photo) :
  let answer := Util.algo photo regex ts matches arr in
  0 <= snd answer
  /\ (forall p, In p arr -> score p <= snd answer)
  /\ (0 < snd answer ->
      exists before p after,
        arr = (before ++ p :: after)%list
        /\ fst answer = Some p
        /\ score p = snd answer
        /\ forall q, In q before -> score q < snd answer)
  /\ (snd answer = 0 -> fst answer = hd_error arr).
Proof.
  intros answer.
  assert (Hinit : best arr 0 0 0).
  { split; [intros j p Hj; lia | left; auto]. }
  pose proof (algo_loop_best arr arr 0 0 0 (fun k => eq_refl) eq_refl Hinit)
    as Hb.
  assert (Hans : answer
    = (nth_error arr (fst (Util.algo_loop photo regex ts matches arr 0 0 0)),
       snd (Util.algo_loop photo regex ts matches arr 0 0 0))).
  { unfold answer, Util.algo.
    destruct (Util.algo_loop photo regex ts matches arr 0 0 0). reflexivity. }
  rewrite Hans. cbn [fst snd].
  destruct (Util.algo_loop photo regex ts matches arr 0 0 0) as [pi ps].
  cbn [fst snd] in *. destruct Hb as [Hle Hcase].
  repeat apply conj.
  - destruct Hcase as [[-> _] | [H0 _]]; lia.
  - intros p Hin. apply In_nth_error in Hin as [j Hj].
    apply (Hle j); [ | exact Hj].
    apply nth_error_Some. rewrite Hj. discriminate.
  - intros Hpos. destruct Hcase as [[-> _] | (_ & Hpi & p & Hp & Hs & Hfirst)];
      [lia | ].
    destruct (nth_error_split arr pi Hp) as (before & after & -> & Hlen).
    exists before, p, after. repeat split; try assumption.
    intros q Hq. apply In_nth_error in Hq as [j Hj].
    apply (Hfirst j).
    + rewrite <- Hlen. apply nth_error_Some. rewrite Hj. discriminate.
    + rewrite nth_error_app1; [exact Hj | ].
      apply nth_error_Some. rewrite Hj. discriminate.
  - intros ->. destruct Hcase as [[_ ->] | [H0 _]]; [ | lia].
    destruct arr; reflexivity.
Qed.

End AlgoFacts.

(** ** The statements on sample values *)

Ltac distinct_keys :=
  repeat (apply NoDup_cons;
          [cbn; intros H;
           repeat (destruct H as [H | H]; [discriminate H | ]); destruct H
          | ]);
  apply NoDup_nil.

(** An object has no difference to itself, unless it holds NaN. *)
Lemma objectDifference_same_witness :
  Util.objectDifference Util.sample_inherited Util.sample_object_1
    Util.sample_object_1 5 = Some []
  /\ Util.objectDifference Util.sample_inherited Util.sample_object_nan
       Util.sample_object_nan 5
     = Some [("a"%string, Util.Kept Util.ONaN)].
Proof.
  split.
  - apply (objectDifference_same Util.sample_inherited 1 1
             [("a", Util.ONumber 1);
              ("b", Util.OObject 2 [("c", Util.OString "x")])]%string 5);
      [distinct_keys | ].
    intros k [H | [H | []]]; discriminate H.
  - apply (objectDifference_same Util.sample_inherited 5 5
             [("a", Util.ONaN); ("b", Util.ONumber 1)]%string 5).
    distinct_keys.
Defined.

(** The second part: against the empty object, an [undefined] property
    named [constructor] is part of the difference, as the empty object
    inherits a constructor, and one named [x] is not. *)
Lemma objectDifference_shallow_witness :
  (exists d,
     Util.objectDifference Util.sample_inherited Util.sample_object_1
       Util.sample_object_2 1 = Some d
     /\ Util.find_prop d "a" = None
     /\ Util.find_prop d "b"
        = Some (Util.Kept (Util.OObject 4 [("c"%string, Util.OString "x")])))
  /\ (exists d,
        Util.objectDifference Util.sample_inherited Util.sample_object_empty
          Util.sample_object_constructor 1 = Some d
        /\ Util.find_prop d "constructor" = Some (Util.Kept Util.OUndefined)
        /\ Util.find_prop d "x" = None).
Proof.
  split.
  - destruct (objectDifference_shallow Util.sample_inherited 1 3
                [("a", Util.ONumber 1);
                 ("b", Util.OObject 2 [("c", Util.OString "x")])]%string
                [("a", Util.ONumber 1);
                 ("b", Util.OObject 4 [("c", Util.OString "x")])]%string)
      as (d & Hd & _ & Hin); [distinct_keys | ].
    exists d. split; [exact Hd | ]. split.
    + destruct (Hin "a"%string (Util.ONumber 1) (or_introl eq_refl))
        as [_ Ha].
      destruct (Ha _ eq_refl) as [[_ H] | [H _]];
        [exact H | discriminate H].
    + destruct (Hin "b"%string
                  (Util.OObject 4 [("c"%string, Util.OString "x")])
                  (or_intror (or_introl eq_refl))) as [_ Hb].
      destruct (Hb _ eq_refl) as [[H _] | [_ H]];
        [discriminate H | exact H].
  - destruct (objectDifference_shallow Util.sample_inherited 6 7 []
                [("constructor", Util.OUndefined);
                 ("x", Util.OUndefined)]%string)
      as (d & Hd & _ & Hin); [distinct_keys | ].
    exists d. split; [exact Hd | ]. split.
    + destruct (Hin "constructor"%string Util.OUndefined
                  (or_introl eq_refl)) as [_ Hc].
      destruct (Hc _ eq_refl) as [[H _] | [_ H]];
        [discriminate H | exact H].
    + destruct (Hin "x"%string Util.OUndefined
                  (or_intror (or_introl eq_refl))) as [_ Hx].
      destruct (Hx _ eq_refl) as [[_ H] | [H _]];
        [exact H | discriminate H].
Defined.

Lemma objectDifference_TypeError_witness :
  Util.objectDifference Util.sample_inherited (Util.ONumber 1)
    Util.sample_object_1 0 = None
  /\ Util.objectDifference Util.sample_inherited Util.ONull
       Util.sample_object_1 0 = None.
Proof.
  split.
  - apply (proj1 (objectDifference_TypeError Util.sample_inherited
                    (Util.ONumber 1) Util.sample_object_1 0)).
    left. reflexivity.
  - eapply (proj1 (proj2 (proj2 (objectDifference_TypeError
                                   Util.sample_inherited Util.ONull
                                   Util.sample_object_1 0))));
      reflexivity.
Defined.

Lemma objectDifference_alike_witness :
  Util.objectDifference Util.sample_inherited Util.sample_object_1
    Util.sample_object_2 0 = Some [].
Proof.
  apply objectDifference_alike.
  - lia.
  - apply Util.alike_object. constructor; [ | constructor; [ | constructor]].
    + split; [reflexivity | ].
      apply Util.alike_primitive; [discriminate | reflexivity].
    + split; [reflexivity | ].
      apply Util.alike_object. constructor; [ | constructor].
      split; [reflexivity | ].
      apply Util.alike_primitive; [discriminate | reflexivity].
  - apply Util.well_keyed_object.
    + repeat (apply NoDup_cons;
              [cbn; intros H;
               repeat (destruct H as [H | H]; [discriminate H | ]); destruct H
              | ]);
      apply NoDup_nil.
    + constructor; [apply Util.well_keyed_number | ].
      constructor; [ | constructor].
      apply Util.well_keyed_object.
      * repeat (apply NoDup_cons;
                [cbn; intros H;
                 repeat (destruct H as [H | H]; [discriminate H | ]);
                 destruct H
                | ]);
        apply NoDup_nil.
      * constructor; [apply Util.well_keyed_string | constructor].
Defined.

Lemma invalidHexString_spec_witness :
  Util.invalidHexString (Js.Str "0xF") "address"
  = Some "invalid data, address"%string
  /\ Util.invalidHexString (Js.Number 5) "bhash"
     = Some "invalid type, bhash"%string.
Proof.
  split.
  - apply (proj1 (proj2 (invalidHexString_spec (Js.Str "0xF") "address"))
             "0xF"%string); reflexivity.
  - apply (proj2 (proj2 (invalidHexString_spec (Js.Number 5) "bhash"))).
    discriminate.
Defined.

Lemma compareWeight_numeric_witness :
  Util.compareWeight "ff" "100" = -1 /\ Util.compareWeight "0a" "a" = 0.
Proof.
  split.
  - apply (proj1 (proj2 (compareWeight_numeric "ff" "100"
                           eq_refl eq_refl))).
    reflexivity.
  - apply (proj2 (proj2 (compareWeight_numeric "0a" "a"
                           eq_refl eq_refl))).
    reflexivity.
Defined.

Lemma fidFormat_spec_witness :
  Util.t "abc" 8 = "abc"%string
  /\ Util.t "0123456789" 8 = "01234567~"%string.
Proof.
  destruct (fidFormat_spec "fn" ["abc"; "0123456789"]%string)
    as (_ & Hshort & Hlong & _).
  split.
  - apply Hshort. cbn. lia.
  - apply Hlong. cbn. lia.
Defined.


Lemma algo_first_best_witness :
  exists before p after,
    [0; 3; 5; 5; 2] = (before ++ p :: after)%list
    /\ fst (Util.algo Z Z [1; 2] Z.mul [0; 3; 5; 5; 2]) = Some p
    /\ Util.algo_score Z Z [1; 2] Z.mul p = 15
    /\ forall q, In q before -> Util.algo_score Z Z [1; 2] Z.mul q < 15.
Proof.
  apply (proj1 (proj2 (proj2
           (algo_first_best Z Z [1; 2] Z.mul [0; 3; 5; 5; 2])))).
  reflexivity.
Defined.

End UtilFacts.

(** * Facts about the other answers of the responder *)

Module ResponderFacts.

Import JsFacts.
Import Responder.

Section HandlersFacts.

Variable JSON_stringify : list (string * Js.value) -> string.
Variable byteLength : string -> Z.
Variable ToString : Js.value -> string.
Variable timestamp : string.
Variable search_start : Z.
Variable results_time : Z.
Variable Db_findOne :
  string -> list (string * Js.value) -> option (option (list (string * Js.value))).
Variable Db_find : string -> Js.value -> option Z -> option cursor.
Variable Interpreter_search :
  Js.value -> Z -> string -> option (Js.value * option Z).

Local Abbreviation respond := (_respond JSON_stringify byteLength).
Local Abbreviation internal :=
  (unknownInternal JSON_stringify byteLength timestamp).
Local Abbreviation expand := (expandResults results_time).

Lemma respond_json_get (statusCode : Z) (json : list (string * Js.value))
    (msg k : string) :
  NoDup (map fst json) ->
  Js.get (respond_json statusCode json msg) k
  = if (299 <? statusCode) && negb (Js.truthy (Js.get json "error"))
    then (if Js.has json k then Js.get json k
          else Js.get [("error"%string, Js.Str msg)] k)
    else Js.get json k.
Proof using Type.
  intros Hnd. unfold respond_json.
  destruct ((299 <? statusCode) && negb (Js.truthy (Js.get json "error")));
    [apply get_assign; exact Hnd | reflexivity].
Qed.

(** X5.  [_respond] sends the given status code and serializes the object
    it reports.  Up to status 299 that object is the given one.  Above, an
    object without an own [error] gets the status message as [error]; an
    own [error] is never replaced, not even a falsy one; every other
    property is passed on.  A non-empty [statusMessage] is used as it is. *)
Theorem respond_error (statusCode : Z) (json : list (string * Js.value))
    (statusMessage : option string) :
  NoDup (map fst json) ->
  let r := respond statusCode json statusMessage in
  res_statusCode r = statusCode
  /\ res_body r = JSON_stringify (res_json r)
  /\ (statusCode <= 299 -> res_json r = json)
  /\ (forall k, k <> "error"%string ->
        Js.get (res_json r) k = Js.get json k)
  /\ (Js.has json "error" = true ->
      Js.get (res_json r) "error" = Js.get json "error")
  /\ (Js.has json "error" = false -> 299 < statusCode ->
      Js.get (res_json r) "error" = Js.Str (res_statusMessage r))
  /\ (forall m, statusMessage = Some m -> m <> EmptyString ->
        res_statusMessage r = m).
Proof.
  intros Hnd r. unfold r, _respond.
  cbn [res_statusCode res_body res_json res_statusMessage].
  set (msg := respond_statusMessage statusCode statusMessage).
  assert (Hget : forall k,
    Js.get (respond_json statusCode json msg) k
    = if (299 <? statusCode) && negb (Js.truthy (Js.get json "error"))
      then (if Js.has json k then Js.get json k
            else Js.get [("error"%string, Js.Str msg)] k)
      else Js.get json k).
  { intros k. apply respond_json_get. exact Hnd. }
  repeat apply conj.
  - reflexivity.
  - reflexivity.
  - intros Hle. unfold respond_json.
    replace (299 <? statusCode) with false
      by (symmetry; apply Z.ltb_ge; exact Hle).
    reflexivity.
  - intros k Hk. rewrite Hget.
    destruct ((299 <? statusCode) && negb (Js.truthy (Js.get json "error")));
      [ | reflexivity].
    destruct (Js.has json k) eqn:Hhas; [reflexivity | ].
    rewrite (has_false_get json k Hhas). cbn [Js.get].
    replace (String.eqb "error" k) with false; [reflexivity | ].
    symmetry. apply String.eqb_neq. congruence.
  - intros Hhas. rewrite Hget, Hhas.
    destruct ((299 <? statusCode) && negb (Js.truthy (Js.get json "error")));
      reflexivity.
  - intros Hhas Hgt. rewrite Hget, Hhas, (has_false_get json _ Hhas).
    replace (299 <? statusCode) with true
      by (symmetry; apply Z.ltb_lt; exact Hgt).
    reflexivity.
  - intros m -> Hm. unfold msg, respond_statusMessage, Js.truthy.
    apply String.eqb_neq in Hm. rewrite Hm. reflexivity.
Qed.

(** X6.  [expandResults] reports the count of the cursor as [found], its
    documents as [results] and the elapsed time as [duration].  Without a
    limit, or with the limit 0, there is no [pages]; with a limit above 0
    [pages] is the least number of pages of that size that hold [found]
    documents. *)
Theorem expandResults_pages (c : cursor) (limit : option Z) (start : Z) :
  let dbquery := expand c limit start in
  Js.get dbquery "found" = Js.Number (cursor_count c)
  /\ Js.get dbquery "results" = Js.Array (cursor_toArray c)
  /\ Js.get dbquery "duration" = Js.Number (results_time - start)
  /\ Js.has dbquery "error" = false
  /\ (limit = None \/ limit = Some 0 -> Js.has dbquery "pages" = false)
  /\ (forall l, limit = Some l -> 0 < l -> 0 <= cursor_count c ->
        exists pages,
          Js.get dbquery "pages" = Js.Number pages
          /\ (pages - 1) * l < cursor_count c <= pages * l).
Proof.
  intros dbquery. unfold dbquery, expandResults.
  repeat apply conj.
  - destruct limit as [l | ]; [destruct (Js.truthy (Js.Number l)) | ];
      reflexivity.
  - destruct limit as [l | ]; [destruct (Js.truthy (Js.Number l)) | ];
      reflexivity.
  - destruct limit as [l | ]; [destruct (Js.truthy (Js.Number l)) | ];
      reflexivity.
  - destruct limit as [l | ]; [destruct (Js.truthy (Js.Number l)) | ];
      reflexivity.
  - intros [-> | ->]; reflexivity.
  - intros l -> Hl Hc. unfold Js.truthy.
    replace (l =? 0) with false by (symmetry; apply Z.eqb_neq; lia).
    exists (ceil_div (cursor_count c) l). split; [reflexivity | ].
    unfold ceil_div.
    pose proof (Z.div_mod (- cursor_count c) l ltac:(lia)) as Hdm.
    pose proof (Z.mod_pos_bound (- cursor_count c) l Hl) as Hm.
    nia.
Qed.

Local Abbreviation search_ :=
  (search JSON_stringify byteLength timestamp search_start results_time
     Db_find Interpreter_search).
Local Abbreviation network_ :=
  (network JSON_stringify byteLength ToString timestamp Db_findOne).
Local Abbreviation transaction_ :=
  (transaction JSON_stringify byteLength ToString timestamp Db_findOne).

Lemma expand_no_error (c : cursor) (limit : option Z) (start : Z) :
  Js.get (expand c limit start) "error" = Js.Undefined
  /\ Js.has (expand c limit start) "error" = false
  /\ NoDup (map fst (expand c limit start)).
Proof using results_time.
  unfold expandResults.
  destruct limit as [l | ]; [destruct (Js.truthy (Js.Number l)) | ];
    cbn; (split; [reflexivity | split; [reflexivity | ]]);
    repeat (apply NoDup_cons;
            [cbn; intros H;
             repeat (destruct H as [H | H]; [discriminate H | ]); destruct H
            | ]);
    apply NoDup_nil.
Qed.

(** The answer of [search] without documents. *)
Lemma no_results_answer (c : cursor) (limit : option Z) (start : Z) :
  let r := respond 404 (expand c limit start) (Some "No results"%string) in
  res_statusCode r = 404
  /\ res_statusMessage r = "No results"%string
  /\ Js.get (res_json r) "error" = Js.Str "No results"
  /\ forall k, k <> "error"%string ->
       Js.get (res_json r) k = Js.get (expand c limit start) k.
Proof using Type.
  destruct (expand_no_error c limit start) as (Herr & Hhas & Hnd).
  cbn zeta. unfold _respond.
  cbn [res_statusCode res_statusMessage res_json respond_statusMessage
       Js.truthy String.eqb negb].
  repeat apply conj; try reflexivity.
  - rewrite (respond_json_get _ _ _ _ Hnd), Herr, Hhas. reflexivity.
  - intros k Hk. rewrite (respond_json_get _ _ _ _ Hnd), Herr.
    cbn [Z.ltb Z.compare Pos.compare Pos.compare_cont Js.truthy negb andb].
    destruct (Js.has (expand c limit start) k) eqn:Hk'; [reflexivity | ].
    rewrite (has_false_get _ _ Hk'). cbn [Js.get].
    replace (String.eqb "error" k) with false; [reflexivity | ].
    symmetry. apply String.eqb_neq. congruence.
Qed.

(** X7.  When the interpreter and the database answer, [search] sends the
    expanded results: with status 200 and message "OK" when there is at
    least one document, and otherwise with status 404, the message
    "No results" and the same text as [error], the other properties
    unchanged.  When the interpreter or the database throws, the answer is
    the one of [unknownInternal]. *)
Theorem search_answer (cName : string) (paged : Z) (arg : Js.value) :
  let r := search_ cName paged arg in
  (forall query limit c,
     Interpreter_search arg paged cName = Some (query, limit) ->
     Db_find cName query limit = Some c ->
     let dbquery := expand c limit search_start in
     (cursor_toArray c <> [] ->
      res_statusCode r = 200 /\ res_statusMessage r = "OK"%string
      /\ res_json r = dbquery)
     /\ (cursor_toArray c = [] ->
         res_statusCode r = 404
         /\ res_statusMessage r = "No results"%string
         /\ Js.get (res_json r) "error" = Js.Str "No results"
         /\ forall k, k <> "error"%string ->
              Js.get (res_json r) k = Js.get dbquery k))
  /\ (Interpreter_search arg paged cName = None -> r = internal)
  /\ (forall query limit,
        Interpreter_search arg paged cName = Some (query, limit) ->
        Db_find cName query limit = None -> r = internal).
Proof.
  clear Db_findOne ToString.
  intros r. unfold r, search. split; [ | split].
  - intros query limit c Hi Hd. rewrite Hi, Hd.
    set (dbquery := expand c limit search_start).
    split.
    + intros Hne. destruct (cursor_toArray c) as [ | d ds];
        [contradiction | ].
      repeat split.
    + intros ->. exact (no_results_answer c limit search_start).
  - intros ->. reflexivity.
  - intros query limit -> ->. reflexivity.
Qed.

(** The loop over the regions. *)
Lemma check_regions_ok (regions : list Js.value) :
  check_regions regions = RegionsOk
  <-> forall v, In v regions ->
        v <> Js.Undefined /\ v <> Js.Null
        /\ forall props, v = Js.Object props ->
             Js.truthy (Js.get props "status") = false.
Proof.
  induction regions as [ | region rest IH]; cbn [check_regions].
  - split; [intros _ v [] | reflexivity].
  - split.
    + intros H v [<- | Hin].
      * destruct region; try discriminate H;
          (split; [discriminate | split; [discriminate | ]]);
          intros q Hq; try discriminate Hq.
        injection Hq as <-.
        destruct (Js.truthy (Js.get props "status"));
          [discriminate H | reflexivity].
      * apply IH; [ | exact Hin].
        destruct region; try discriminate H; try exact H.
        destruct (Js.truthy (Js.get props "status"));
          [discriminate H | exact H].
    + intros H.
      assert (Hrest : check_regions rest = RegionsOk).
      { apply IH. intros v Hv. apply H. right. exact Hv. }
      destruct (H region (or_introl eq_refl)) as (Hu & Hn & Hobj).
      destruct region; try exact Hrest; try congruence.
      rewrite (Hobj props eq_refl). exact Hrest.
Qed.

Lemma check_regions_throws (regions : list Js.value) :
  (forall v, In v regions -> v <> Js.Undefined /\ v <> Js.Null) ->
  check_regions regions <> RegionThrows.
Proof.
  induction regions as [ | region rest IH]; cbn [check_regions]; intros H.
  - discriminate.
  - assert (Hrest : check_regions rest <> RegionThrows).
    { apply IH. intros v Hv. apply H. right. exact Hv. }
    destruct (H region (or_introl eq_refl)) as (Hu & Hn).
    destruct region; try exact Hrest; try congruence.
    destruct (Js.truthy (Js.get props "status")); [discriminate | exact Hrest].
Qed.

(** X8.  [network] with the status "active", for a node whose
    [connection] is an object: there is one answer.  It is the 200 with the
    node exactly when no region is [null] or [undefined] and no region has
    a truthy [status]; when no region is [null] or [undefined] and some
    region has a truthy [status] it is the 404 "Not Found". *)
Theorem network_active (ip : Js.value) (node regions : list (string * Js.value)) :
  let asked := if Js.truthy ip then ip else Js.Str "active" in
  let all_ok :=
    forall v, In v (map snd regions) ->
      v <> Js.Undefined /\ v <> Js.Null
      /\ forall props, v = Js.Object props ->
           Js.truthy (Js.get props "status") = false in
  Db_findOne "network" [("host.ip"%string, asked)] = Some (Some node) ->
  Js.get node "connection" = Js.Object regions ->
  exists r,
    network_ (Js.Str "active") ip = [r]
    /\ (res_statusCode r = 200 <-> all_ok)
    /\ (res_statusCode r = 200 -> res_json r = node)
    /\ ((forall v, In v (map snd regions) ->
           v <> Js.Undefined /\ v <> Js.Null) ->
        ~ all_ok ->
        res_statusCode r = 404
        /\ Js.get (res_json r) "error" = Js.Str "Not Found").
Proof.
  intros asked all_ok Hfind Hconn. unfold network. fold asked.
  rewrite Hfind, Hconn.
  cbn [Js.is_string Js.typeof String.eqb Ascii.eqb Bool.eqb Object_values
       app].
  pose proof (check_regions_ok (map snd regions)) as Hok.
  pose proof (check_regions_throws (map snd regions)) as Hthrows.
  fold all_ok in Hok.
  destruct (check_regions (map snd regions)); eexists; (split; [reflexivity | ]);
    cbn [res_statusCode res_json _respond].
  - split; [split | split].
    + intros H. discriminate H.
    + intros H. apply Hok in H. discriminate H.
    + intros H. discriminate H.
    + intros _ _. split; reflexivity.
  - split; [split | split].
    + intros H. discriminate H.
    + intros H. apply Hok in H. discriminate H.
    + intros H. discriminate H.
    + intros Hnn _. exfalso. apply (Hthrows Hnn). reflexivity.
  - split; [split | split].
    + intros _. apply Hok. reflexivity.
    + reflexivity.
    + intros _. reflexivity.
    + intros _ Hnot. exfalso. apply Hnot, Hok. reflexivity.
Qed.

(** What an answer that is not a 200 looks like. *)
Local Abbreviation reports_error r :=
  (res_statusCode r = 200
   \/ ((res_statusCode r = 404 \/ res_statusCode r = 500)
       /\ Js.get (res_json r) "error" = Js.Str (res_statusMessage r)
       /\ res_statusMessage r <> EmptyString)).

Lemma internal_reports_error : reports_error internal.
Proof. right. repeat split; [right; reflexivity | discriminate]. Qed.

Lemma not_found_reports_error (message : Js.value) :
  reports_error (respond 404 [("message"%string, message)] None).
Proof. right. repeat split; [left; reflexivity | discriminate]. Qed.

Lemma found_reports_error (doc : list (string * Js.value)) :
  reports_error (respond 200 doc None).
Proof. left. reflexivity. Qed.

(** X9.  Every answer of [transaction], [search] and [network] has the
    status 200, 404 or 500, and an answer that is not a 200 carries its
    non-empty status message as [error]. *)
Theorem answers_report_error (txid arg status ip : Js.value)
    (cName : string) (paged : Z) (r : http_response) :
  In r (transaction_ txid :: search_ cName paged arg :: network_ status ip) ->
  res_statusCode r = 200
  \/ ((res_statusCode r = 404 \/ res_statusCode r = 500)
      /\ Js.get (res_json r) "error" = Js.Str (res_statusMessage r)
      /\ res_statusMessage r <> EmptyString).
Proof.
  intros [<- | [<- | Hin]].
  - unfold transaction.
    destruct (Db_findOne "transaction" [("txid"%string, txid)])
      as [[doc | ] | ].
    + apply found_reports_error.
    + apply not_found_reports_error.
    + apply internal_reports_error.
  - unfold search.
    destruct (Interpreter_search arg paged cName) as [[query limit] | ];
      [ | apply internal_reports_error].
    destruct (Db_find cName query limit) as [c | ];
      [ | apply internal_reports_error].
    destruct (cursor_toArray c) as [ | d ds].
    + right.
      destruct (no_results_answer c limit search_start) as (Hc & Hm & He & _).
      cbn zeta in Hc, Hm, He. rewrite Hc, Hm, He.
      repeat split; [left; reflexivity | discriminate].
    + apply found_reports_error.
  - revert Hin. unfold network.
    set (asked := if Js.truthy ip then ip else status).
    destruct (Db_findOne "network" [("host.ip"%string, asked)])
      as [[node | ] | ].
    + assert (Hactive : forall answers : list http_response,
        (forall a, In a answers -> reports_error a) ->
        In r answers -> reports_error r).
      { intros answers H Hin. apply H. exact Hin. }
      assert (Hone : forall a, reports_error a ->
                forall b, In b [a] -> reports_error b).
      { intros a Ha b [<- | []]. exact Ha. }
      assert (Htwo : forall (pre : list http_response) a,
                (forall b, In b pre -> reports_error b) ->
                reports_error a ->
                forall b, In b (pre ++ [a]) -> reports_error b).
      { intros pre a Hpre Ha b Hb. apply in_app_iff in Hb as [Hb | [<- | []]];
          [apply Hpre; exact Hb | exact Ha]. }
      assert (Hpre : forall b,
                In b (if String.eqb (Js.typeof (Js.get node "connection"))
                                    "object"
                      then [] else [internal]) ->
                reports_error b).
      { intros b. destruct (String.eqb _ _); [intros [] | ].
        apply Hone, internal_reports_error. }
      destruct (Js.is_string status "active");
        [ | apply Hactive, Hone, found_reports_error].
      apply Hactive.
      destruct (Object_values (Js.get node "connection")) as [regions | ].
      * destruct (check_regions regions); apply Htwo; try exact Hpre.
        -- apply not_found_reports_error.
        -- apply internal_reports_error.
        -- apply found_reports_error.
      * apply Htwo; [exact Hpre | apply internal_reports_error].
    + intros [<- | []]. apply not_found_reports_error.
    + intros [<- | []]. apply internal_reports_error.
Qed.

End HandlersFacts.

(** ** The statements on the sample data *)

Local Abbreviation sample_respond :=
  (_respond sample_stringify sample_byteLength).

Lemma respond_error_witness :
  let r := sample_respond 404 [("message"%string, Js.Str "gone")] None in
  Js.get (res_json r) "error" = Js.Str "Not Found"
  /\ Js.get (res_json r) "message" = Js.Str "gone".
Proof.
  destruct (respond_error sample_stringify sample_byteLength 404
              [("message"%string, Js.Str "gone")] None)
    as (_ & _ & _ & Hk & _ & He & _).
  - repeat constructor. intros [].
  - split.
    + apply He; [reflexivity | lia].
    + apply Hk. discriminate.
Defined.

Lemma expandResults_pages_witness :
  exists pages,
    Js.get (expandResults 50 (mkCursor 10 []) (Some 3) 20) "pages"
    = Js.Number pages
    /\ (pages - 1) * 3 < 10 <= pages * 3.
Proof.
  apply (proj2 (proj2 (proj2 (proj2 (proj2
           (expandResults_pages 50 (mkCursor 10 []) (Some 3) 20)))))
           3 eq_refl); cbn; lia.
Defined.

Lemma search_answer_witness :
  let r := search sample_stringify sample_byteLength "now"%string 20 50
             sample_Db_find sample_Interpreter_search "block"%string 1
             Js.Undefined in
  res_statusCode r = 404
  /\ res_statusMessage r = "No results"%string
  /\ Js.get (res_json r) "error" = Js.Str "No results".
Proof.
  destruct (search_answer sample_stringify sample_byteLength "now"%string 20 50
              sample_Db_find sample_Interpreter_search "block"%string 1
              Js.Undefined) as (H & _ & _).
  destruct (H (Js.Object []) (Some 3) (mkCursor 0 []) eq_refl eq_refl)
    as [_ H404].
  destruct (H404 eq_refl) as (Hc & Hm & He & _).
  repeat split; assumption.
Defined.

Lemma network_active_witness :
  exists r,
    network sample_stringify sample_byteLength sample_ToString "now"%string
      sample_Db_findOne (Js.Str "active") (Js.Str "10.0.0.1") = [r]
    /\ res_statusCode r = 404
    /\ Js.get (res_json r) "error" = Js.Str "Not Found".
Proof.
  destruct (network_active sample_stringify sample_byteLength
              sample_ToString "now"%string sample_Db_findOne (Js.Str "10.0.0.1")
              sample_node
              [("eu", Js.Object [("status", Js.Number 0)]);
               ("us", Js.Object [("status", Js.Number 1)])]%string
              eq_refl eq_refl)
    as (r & Hr & _ & _ & H404).
  exists r. split; [exact Hr | ].
  apply H404.
  - intros v [<- | [<- | []]]; split; discriminate.
  - intros Hall.
    destruct (Hall (Js.Object [("status"%string, Js.Number 1)]))
      as (_ & _ & Hstatus).
    + right. left. reflexivity.
    + specialize (Hstatus _ eq_refl). discriminate Hstatus.
Defined.

Lemma answers_report_error_witness :
  let r := transaction sample_stringify sample_byteLength sample_ToString
             "now"%string sample_Db_findOne (Js.Str "ab") in
  res_statusCode r = 200
  \/ ((res_statusCode r = 404 \/ res_statusCode r = 500)
      /\ Js.get (res_json r) "error" = Js.Str (res_statusMessage r)
      /\ res_statusMessage r <> EmptyString).
Proof.
  apply (answers_report_error sample_stringify sample_byteLength
           sample_ToString "now"%string 20 50 sample_Db_findOne sample_Db_find
           sample_Interpreter_search (Js.Str "ab") Js.Undefined
           (Js.Str "active") Js.Undefined "block"%string 1).
  left. reflexivity.
Defined.

End ResponderFacts.
